(** * Browser-support analyzer: a shallow embedding of [src/app/lib/analyzer.ts]

    The development follows the source file top to bottom: the JavaScript
    string and array primitives the analyzer relies on, the data model
    ([CodeSnippet], [FeatureSupport], [DetectedFeature], [AnalysisResult]),
    the feature catalogue [featureMap], the snippet extractor
    [extractSnippet], the accumulator behind [addFeature], the visitor table
    handed to [traverse], and finally [analyzeCode] with its aggregation
    steps.  Theorems come after the definitions. *)

From Stdlib Require Import ZArith String Ascii List Lia Bool QArith.
From stdpp Require Import base option list gmap strings.

Local Open Scope string_scope.
Local Open Scope Z_scope.
Local Open Scope list_scope.

(** ** JavaScript primitives

    Strings are sequences of code units; arithmetic on offsets and line
    numbers is integer arithmetic on [Z] (all quantities stay far below
    2^53, where JavaScript numbers are exact integers). *)

Module JS.

Definition newline : ascii := Ascii.ascii_of_nat 10.

(** [s.length] *)
Definition len (s : string) : Z := Z.of_nat (String.length s).

(** [s.split('\n')]: never empty, a trailing separator yields a trailing
    empty piece. *)
Fixpoint split_nl (s : string) : list string :=
  match s with
  | EmptyString => [EmptyString]
  | String c rest =>
      if Ascii.eqb c newline then EmptyString :: split_nl rest
      else match split_nl rest with
           | l :: ls => String c l :: ls
           | [] => [String c EmptyString]
           end
  end.

(** [arr.join('\n')] *)
Definition join_nl (ls : list string) : string :=
  String.concat (String newline EmptyString) ls.

(** Relative index resolution shared by [Array.prototype.slice] and
    [String.prototype.slice]: negative indices count from the end, and
    everything is clamped to [0, len]. *)
Definition rel_index (len k : Z) : Z :=
  if k <? 0 then Z.max (len + k) 0 else Z.min k len.

(** [arr.slice(a, b)] *)
Definition array_slice {A} (l : list A) (a b : Z) : list A :=
  let n := Z.of_nat (length l) in
  let from := rel_index n a in
  let to := rel_index n b in
  take (Z.to_nat (to - from)) (drop (Z.to_nat from) l).

(** [s.slice(a, b)] *)
Definition string_slice (s : string) (a b : Z) : string :=
  let n := len s in
  let from := rel_index n a in
  let to := rel_index n b in
  String.substring (Z.to_nat from) (Z.to_nat (to - from)) s.

(** [s.startsWith(p)] *)
Definition startsWith (s p : string) : bool := String.prefix p s.

(** [s.includes(p)]: [p] occurs somewhere in [s]. *)
Fixpoint includes (s p : string) : bool :=
  String.prefix p s ||
  match s with
  | EmptyString => false
  | String _ rest => includes rest p
  end.

(** [arr.includes(x)] on an array of strings *)
Definition array_includes (l : list string) (x : string) : bool :=
  existsb (String.eqb x) l.

(** *** Numbers

    The only non-integer numbers of the analyzer are browser versions:
    [parseFloat] applied to a string of digits and periods, compared by
    [Math.max] and printed back with [toString].  Such a number is kept as
    its canonical decimal numeral, which is what [toString] prints; this
    is exact for numerals of at most 15 significant digits below 1e21,
    where a double determines its shortest decimal form and the decimal
    order is the order of the doubles. *)

Definition is_digit (c : ascii) : bool :=
  let n := nat_of_ascii c in (48 <=? n)%nat && (n <=? 57)%nat.

Definition is_dot (c : ascii) : bool := Ascii.eqb c ".".

(** [s.replace(/[^0-9.]/g, '')] *)
Fixpoint keep_digits_dots (s : string) : string :=
  match s with
  | EmptyString => EmptyString
  | String c rest =>
      if is_digit c || is_dot c then String c (keep_digits_dots rest)
      else keep_digits_dots rest
  end.

Record decimal := mkDecimal {
  int_part : string;
  frac_part : string
}.

Inductive number :=
| NaN
| NegInfinity
| Finite (d : decimal).

(** The longest prefix of digits, and what follows it. *)
Fixpoint take_digits (s : string) : string * string :=
  match s with
  | EmptyString => (EmptyString, EmptyString)
  | String c rest =>
      if is_digit c
      then let (ds, tl) := take_digits rest in (String c ds, tl)
      else (EmptyString, s)
  end.

Fixpoint drop_leading_zeros (s : string) : string :=
  match s with
  | EmptyString => "0"
  | String c rest =>
      if Ascii.eqb c "0" then drop_leading_zeros rest else s
  end.

Fixpoint drop_trailing_zeros (s : string) : string :=
  match s with
  | EmptyString => EmptyString
  | String c rest =>
      let rest' := drop_trailing_zeros rest in
      if Ascii.eqb c "0" && String.eqb rest' "" then EmptyString
      else String c rest'
  end.

(** [parseFloat(s)] for [s] over digits and periods: the longest prefix
    of the form [digits], [digits.], [digits.digits] or [.digits];
    [NaN] when there is none. *)
Definition parseFloat (s : string) : number :=
  let (ip, rest) := take_digits s in
  let fp :=
    match rest with
    | String c tl => if is_dot c then fst (take_digits tl) else EmptyString
    | EmptyString => EmptyString
    end in
  if String.eqb ip "" && String.eqb fp "" then NaN
  else Finite (mkDecimal (drop_leading_zeros ip) (drop_trailing_zeros fp)).

Fixpoint digits_value (acc : Z) (s : string) : Z :=
  match s with
  | EmptyString => acc
  | String c rest =>
      digits_value (10 * acc + (Z.of_nat (nat_of_ascii c) - 48)) rest
  end.

(** The rational a numeral denotes. *)
Definition value (d : decimal) : Q :=
  inject_Z (digits_value 0 (int_part d))
  + Qmake (digits_value 0 (frac_part d))
          (Z.to_pos (10 ^ len (frac_part d))).

Definition isNaN (n : number) : bool :=
  match n with NaN => true | _ => false end.

(** [Math.max(a, b)] *)
Definition max2 (a b : number) : number :=
  match a, b with
  | NaN, _ | _, NaN => NaN
  | NegInfinity, x | x, NegInfinity => x
  | Finite x, Finite y => if Qle_bool (value x) (value y) then b else a
  end.

(** [Math.max(...l)] *)
Definition Math_max (l : list number) : number :=
  fold_left max2 l NegInfinity.

(** [n.toString()] *)
Definition toString (n : number) : string :=
  match n with
  | NaN => "NaN"
  | NegInfinity => "-Infinity"
  | Finite d =>
      if String.eqb (frac_part d) "" then int_part d
      else int_part d +:+ "." +:+ frac_part d
  end.

(** *** Text helpers of the page and of the result view *)

(** The white space [trim] removes, as far as 8-bit characters go: tab to
    carriage return, space and no-break space. *)
Definition is_whitespace (c : ascii) : bool :=
  let n := nat_of_ascii c in
  ((9 <=? n)%nat && (n <=? 13)%nat) || (n =? 32)%nat || (n =? 160)%nat.

Fixpoint trim_start (s : string) : string :=
  match s with
  | EmptyString => EmptyString
  | String c rest => if is_whitespace c then trim_start rest else s
  end.

Fixpoint trim_end (s : string) : string :=
  match s with
  | EmptyString => EmptyString
  | String c rest =>
      let rest' := trim_end rest in
      if is_whitespace c && String.eqb rest' "" then EmptyString
      else String c rest'
  end.

(** [s.trim()] *)
Definition trim (s : string) : string := trim_end (trim_start s).

(** [s.substring(a, b)]: both indices clamped to [0, length], swapped when
    out of order. *)
Definition substring (s : string) (a b : Z) : string :=
  let n := len s in
  let a' := Z.max 0 (Z.min a n) in
  let b' := Z.max 0 (Z.min b n) in
  String.substring (Z.to_nat (Z.min a' b'))
                   (Z.to_nat (Z.max a' b' - Z.min a' b')) s.

(** [s.substring(a)] *)
Definition substring_from (s : string) (a : Z) : string :=
  substring s a (len s).

End JS.

(** ** Data model *)

Record CodeSnippet := mkSnippet {
  text : string;
  startLine : Z;
  matchLine : Z;
  matchCol : Z;
  matchLength : Z;
  matchText : string
}.

Record Support := mkSupport {
  chrome : string;
  firefox : string;
  safari : string;
  edge : string;
  ie : string
}.

Record FeatureSupport := mkFS {
  feature : string;
  description : string;
  support : Support;
  notes : option string
}.

(** [DetectedFeature extends FeatureSupport]. *)
Record DetectedFeature := mkDF {
  base :> FeatureSupport;
  codeSnippets : list CodeSnippet
}.

Record Summary := mkSummary {
  totalFeatures : Z;
  modernFeatures : Z;
  legacySupport : bool
}.

Record AnalysisResult := mkResult {
  features : list DetectedFeature;
  summary : Summary;
  minimumVersions : Support
}.

(** ** The feature catalogue

    The entries of the object literal [featureMap], in source order. *)

Definition featureMap_entries : list (string * FeatureSupport) :=
  [
    ("arrow-function", mkFS "Arrow Functions"
       "Arrow function expressions (=>)"
       (mkSupport "45+" "22+" "10+" "12+" "No") None);
    ("const-declaration", mkFS "Const Declaration"
       "Block-scoped constant declarations"
       (mkSupport "49+" "36+" "10+" "12+" "11*") (Some "IE11 has partial support"));
    ("let-declaration", mkFS "Let Declaration"
       "Block-scoped variable declarations"
       (mkSupport "49+" "44+" "10+" "12+" "11*") (Some "IE11 has partial support"));
    ("template-literal", mkFS "Template Literals"
       "Template literal syntax with ${} interpolation"
       (mkSupport "41+" "34+" "9+" "12+" "No") None);
    ("destructuring", mkFS "Destructuring Assignment"
       "Destructuring objects and arrays"
       (mkSupport "49+" "41+" "8+" "14+" "No") None);
    ("spread-operator", mkFS "Spread Operator"
       "Spread syntax (...) for arrays and objects"
       (mkSupport "46+" "16+" "10+" "12+" "No") None);
    ("async-await", mkFS "Async/Await"
       "Asynchronous function syntax"
       (mkSupport "55+" "52+" "10.1+" "14+" "No") None);
    ("promise", mkFS "Promises"
       "Native Promise implementation"
       (mkSupport "32+" "29+" "7.1+" "12+" "No") None);
    ("class-declaration", mkFS "Classes"
       "ES6 class syntax"
       (mkSupport "49+" "45+" "9+" "13+" "No") None);
    ("for-of", mkFS "For...of Loop"
       "For...of iteration syntax"
       (mkSupport "38+" "13+" "7+" "12+" "No") None);
    ("optional-chaining", mkFS "Optional Chaining"
       "Optional chaining operator (?.)"
       (mkSupport "80+" "72+" "13.1+" "80+" "No") None);
    ("nullish-coalescing", mkFS "Nullish Coalescing"
       "Nullish coalescing operator (??)"
       (mkSupport "80+" "72+" "13.1+" "80+" "No") None);
    ("map-object", mkFS "Map Object"
       "Native Map data structure"
       (mkSupport "38+" "13+" "7.1+" "12+" "11+") None);
    ("set-object", mkFS "Set Object"
       "Native Set data structure"
       (mkSupport "38+" "13+" "7.1+" "12+" "11+") None);
    ("symbol", mkFS "Symbol"
       "Symbol primitive type"
       (mkSupport "38+" "36+" "9+" "12+" "No") None);
    ("default-parameters", mkFS "Default Parameters"
       "Function default parameter values"
       (mkSupport "49+" "15+" "10+" "14+" "No") None);
    ("rest-parameters", mkFS "Rest Parameters"
       "Rest parameters (...args)"
       (mkSupport "47+" "15+" "10+" "12+" "No") None);
    ("computed-property", mkFS "Computed Property Names"
       "Object computed property names [key]: value"
       (mkSupport "47+" "34+" "8+" "12+" "No") None);
    ("shorthand-property", mkFS "Shorthand Properties"
       "Object shorthand property syntax {a, b}"
       (mkSupport "43+" "33+" "9+" "12+" "No") None);
    ("method-definition", mkFS "Method Definitions"
       "Object method shorthand {method() {}}"
       (mkSupport "39+" "34+" "9+" "12+" "No") None);
    ("generator-function", mkFS "Generator Functions"
       "Generator functions function*"
       (mkSupport "39+" "26+" "10+" "13+" "No") None);
    ("import-statement", mkFS "ES6 Modules (import)"
       "ES6 import statements"
       (mkSupport "61+" "60+" "10.1+" "16+" "No") None);
    ("export-statement", mkFS "ES6 Modules (export)"
       "ES6 export statements"
       (mkSupport "61+" "60+" "10.1+" "16+" "No") None);
    ("dynamic-import", mkFS "Dynamic Import"
       "Dynamic import() syntax"
       (mkSupport "63+" "67+" "11.1+" "79+" "No") None);
    ("array-from", mkFS "Array.from()"
       "Array.from() method"
       (mkSupport "45+" "32+" "9+" "12+" "No") None);
    ("array-find", mkFS "Array.find()"
       "Array.prototype.find() method"
       (mkSupport "45+" "25+" "7.1+" "12+" "No") None);
    ("array-findindex", mkFS "Array.findIndex()"
       "Array.prototype.findIndex() method"
       (mkSupport "45+" "25+" "7.1+" "12+" "No") None);
    ("array-includes", mkFS "Array.includes()"
       "Array.prototype.includes() method"
       (mkSupport "47+" "43+" "9+" "14+" "No") None);
    ("array-flat", mkFS "Array.flat()"
       "Array.prototype.flat() method"
       (mkSupport "69+" "62+" "12+" "79+" "No") None);
    ("array-flatmap", mkFS "Array.flatMap()"
       "Array.prototype.flatMap() method"
       (mkSupport "69+" "62+" "12+" "79+" "No") None);
    ("object-assign", mkFS "Object.assign()"
       "Object.assign() method"
       (mkSupport "45+" "34+" "9+" "12+" "No") None);
    ("object-keys", mkFS "Object.keys()"
       "Object.keys() method"
       (mkSupport "5+" "4+" "5+" "12+" "9+") None);
    ("object-values", mkFS "Object.values()"
       "Object.values() method"
       (mkSupport "54+" "47+" "10.1+" "14+" "No") None);
    ("object-entries", mkFS "Object.entries()"
       "Object.entries() method"
       (mkSupport "54+" "47+" "10.1+" "14+" "No") None);
    ("object-fromentries", mkFS "Object.fromEntries()"
       "Object.fromEntries() method"
       (mkSupport "73+" "63+" "12.1+" "79+" "No") None);
    ("string-includes", mkFS "String.includes()"
       "String.prototype.includes() method"
       (mkSupport "41+" "40+" "9+" "12+" "No") None);
    ("string-startswith", mkFS "String.startsWith()"
       "String.prototype.startsWith() method"
       (mkSupport "41+" "17+" "9+" "12+" "No") None);
    ("string-endswith", mkFS "String.endsWith()"
       "String.prototype.endsWith() method"
       (mkSupport "41+" "17+" "9+" "12+" "No") None);
    ("string-repeat", mkFS "String.repeat()"
       "String.prototype.repeat() method"
       (mkSupport "41+" "24+" "9+" "12+" "No") None);
    ("string-padstart", mkFS "String.padStart()"
       "String.prototype.padStart() method"
       (mkSupport "57+" "48+" "10+" "15+" "No") None);
    ("string-padend", mkFS "String.padEnd()"
       "String.prototype.padEnd() method"
       (mkSupport "57+" "48+" "10+" "15+" "No") None);
    ("weakmap", mkFS "WeakMap"
       "WeakMap data structure"
       (mkSupport "36+" "6+" "7.1+" "12+" "11+") None);
    ("weakset", mkFS "WeakSet"
       "WeakSet data structure"
       (mkSupport "36+" "34+" "9+" "12+" "No") None);
    ("proxy", mkFS "Proxy"
       "Proxy object for meta-programming"
       (mkSupport "49+" "18+" "10+" "12+" "No") None);
    ("reflect", mkFS "Reflect"
       "Reflect global object"
       (mkSupport "49+" "42+" "10+" "12+" "No") None);
    ("bigint", mkFS "BigInt"
       "BigInt primitive type"
       (mkSupport "67+" "68+" "14+" "79+" "No") None);
    ("private-fields", mkFS "Private Class Fields"
       "Private class fields (#field)"
       (mkSupport "74+" "90+" "14.1+" "79+" "No") None);
    ("static-class-fields", mkFS "Static Class Fields"
       "Static class fields"
       (mkSupport "72+" "75+" "14.1+" "79+" "No") None);
    ("logical-assignment", mkFS "Logical Assignment"
       "Logical assignment operators (&&=, ||=, ??=)"
       (mkSupport "85+" "79+" "14+" "85+" "No") None);
    ("numeric-separators", mkFS "Numeric Separators"
       "Numeric separators (1_000_000)"
       (mkSupport "75+" "70+" "13+" "79+" "No") None);
    ("top-level-await", mkFS "Top-level Await"
       "Await expressions at module top level"
       (mkSupport "89+" "89+" "15+" "89+" "No") None);
    ("regex-named-groups", mkFS "RegExp Named Capture Groups"
       "Named capture groups in regular expressions (?<name>...)"
       (mkSupport "64+" "78+" "11.1+" "79+" "No") None);
    ("regex-lookbehind", mkFS "RegExp Lookbehind Assertions"
       "Lookbehind assertions in regular expressions (?<=...) (?<!...)"
       (mkSupport "62+" "78+" "16.4+" "79+" "No") None);
    ("regex-unicode-property", mkFS "RegExp Unicode Property Escapes"
       "Unicode property escapes in regular expressions \p{...}"
       (mkSupport "64+" "78+" "11.1+" "79+" "No") None);
    ("regex-s-flag", mkFS "RegExp dotAll Flag"
       "Regular expression s flag (dotAll)"
       (mkSupport "62+" "78+" "11.1+" "79+" "No") None);
    ("globalthis", mkFS "globalThis"
       "Global object reference"
       (mkSupport "71+" "65+" "12.1+" "79+" "No") None);
    ("import-meta", mkFS "import.meta"
       "Module metadata object"
       (mkSupport "64+" "62+" "11.1+" "79+" "No") None);
    ("array-at", mkFS "Array.at()"
       "Array.prototype.at() method for relative indexing"
       (mkSupport "92+" "90+" "15.4+" "92+" "No") None);
    ("string-at", mkFS "String.at()"
       "String.prototype.at() method for relative indexing"
       (mkSupport "92+" "90+" "15.4+" "92+" "No") None);
    ("string-replaceall", mkFS "String.replaceAll()"
       "String.prototype.replaceAll() method"
       (mkSupport "85+" "77+" "13.1+" "85+" "No") None);
    ("promise-allsettled", mkFS "Promise.allSettled()"
       "Promise.allSettled() method"
       (mkSupport "76+" "71+" "13+" "79+" "No") None);
    ("promise-any", mkFS "Promise.any()"
       "Promise.any() method"
       (mkSupport "85+" "79+" "14+" "85+" "No") None);
    ("intl-relativetimeformat", mkFS "Intl.RelativeTimeFormat"
       "Internationalization relative time formatting"
       (mkSupport "71+" "65+" "14+" "79+" "No") None);
    ("intl-listformat", mkFS "Intl.ListFormat"
       "Internationalization list formatting"
       (mkSupport "72+" "78+" "14.1+" "79+" "No") None);
    ("finalizationregistry", mkFS "FinalizationRegistry"
       "Weak references and finalization"
       (mkSupport "84+" "79+" "14.1+" "84+" "No") None);
    ("weakref", mkFS "WeakRef"
       "Weak references"
       (mkSupport "84+" "79+" "14.1+" "84+" "No") None);
    ("private-methods", mkFS "Private Class Methods"
       "Private class methods (#method)"
       (mkSupport "84+" "90+" "15+" "84+" "No") None);
    ("array-findlast", mkFS "Array.findLast()"
       "Array.prototype.findLast() method"
       (mkSupport "97+" "104+" "15.4+" "97+" "No") None);
    ("array-findlastindex", mkFS "Array.findLastIndex()"
       "Array.prototype.findLastIndex() method"
       (mkSupport "97+" "104+" "15.4+" "97+" "No") None);
    ("structuredclone", mkFS "structuredClone()"
       "Global structuredClone() function"
       (mkSupport "98+" "94+" "15.4+" "98+" "No") None);
    ("string-matchall", mkFS "String.matchAll()"
       "String.prototype.matchAll() method"
       (mkSupport "73+" "67+" "13+" "79+" "No") None);
    ("array-toreversed", mkFS "Array.toReversed()"
       "Array.prototype.toReversed() method (immutable reverse)"
       (mkSupport "110+" "115+" "16+" "110+" "No") None);
    ("array-tosorted", mkFS "Array.toSorted()"
       "Array.prototype.toSorted() method (immutable sort)"
       (mkSupport "110+" "115+" "16+" "110+" "No") None);
    ("array-tospliced", mkFS "Array.toSpliced()"
       "Array.prototype.toSpliced() method (immutable splice)"
       (mkSupport "110+" "115+" "16+" "110+" "No") None);
    ("array-with", mkFS "Array.with()"
       "Array.prototype.with() method (immutable element replacement)"
       (mkSupport "110+" "115+" "16+" "110+" "No") None);
    ("string-trimstart", mkFS "String.trimStart()"
       "String.prototype.trimStart() method"
       (mkSupport "66+" "61+" "12+" "79+" "No") None);
    ("string-trimend", mkFS "String.trimEnd()"
       "String.prototype.trimEnd() method"
       (mkSupport "66+" "61+" "12+" "79+" "No") None);
    ("object-hasown", mkFS "Object.hasOwn()"
       "Object.hasOwn() method"
       (mkSupport "93+" "92+" "15.4+" "93+" "No") None);
    ("object-groupby", mkFS "Object.groupBy()"
       "Object.groupBy() method"
       (mkSupport "117+" "119+" "17+" "117+" "No") None);
    ("json-parse-reviver", mkFS "JSON.parse() with source"
       "JSON.parse() with source text access"
       (mkSupport "105+" "No" "16+" "105+" "No") None);
    ("temporal", mkFS "Temporal API"
       "New date/time API (Stage 3)"
       (mkSupport "No*" "No*" "No*" "No*" "No") (Some "Stage 3 proposal, available behind flags"));
    ("decorators", mkFS "Decorators"
       "Class and method decorators"
       (mkSupport "120+" "No*" "No*" "120+" "No") (Some "Stage 3 proposal with limited support"));
    ("iterator-helpers", mkFS "Iterator Helpers"
       "Iterator.prototype methods (map, filter, etc.)"
       (mkSupport "122+" "No*" "No*" "122+" "No") (Some "Stage 3 proposal"));
    ("atomics", mkFS "Atomics"
       "Atomic operations for SharedArrayBuffer"
       (mkSupport "68+" "78+" "15.2+" "79+" "No") None);
    ("sharedarraybuffer", mkFS "SharedArrayBuffer"
       "Shared memory between workers"
       (mkSupport "68+" "79+" "15.2+" "79+" "No") None);
    ("bigint64array", mkFS "BigInt64Array"
       "Typed array for 64-bit integers"
       (mkSupport "67+" "68+" "15+" "79+" "No") None);
    ("biguint64array", mkFS "BigUint64Array"
       "Typed array for 64-bit unsigned integers"
       (mkSupport "67+" "68+" "15+" "79+" "No") None);
    ("error-cause", mkFS "Error.cause"
       "Error constructor with cause option"
       (mkSupport "93+" "91+" "15+" "93+" "No") None);
    ("aggregate-error", mkFS "AggregateError"
       "Error that wraps multiple errors"
       (mkSupport "85+" "79+" "14+" "85+" "No") None);
    ("regex-match-indices", mkFS "RegExp Match Indices"
       "RegExp d flag for match indices"
       (mkSupport "90+" "88+" "15+" "90+" "No") None);
    ("hashbang", mkFS "Hashbang Grammar"
       "Shebang (#!) support in modules"
       (mkSupport "74+" "67+" "13.1+" "79+" "No") None);
    ("import-assertions", mkFS "Import Assertions"
       "Import with type assertions"
       (mkSupport "91+" "No*" "No*" "91+" "No") (Some "Being replaced by Import Attributes"));
    ("import-attributes", mkFS "Import Attributes"
       "Import with attributes (replaces assertions)"
       (mkSupport "123+" "No*" "No*" "123+" "No") (Some "Stage 3 proposal"));
    ("resizable-arraybuffer", mkFS "Resizable ArrayBuffer"
       "ArrayBuffer.prototype.resize()"
       (mkSupport "111+" "No*" "16.4+" "111+" "No") None);
    ("async-iteration", mkFS "Async Iteration"
       "for-await-of loops and async generators"
       (mkSupport "63+" "57+" "11.1+" "79+" "No") None);
    ("regex-v-flag", mkFS "RegExp v Flag"
       "RegExp v flag for extended Unicode support"
       (mkSupport "112+" "116+" "17+" "112+" "No") None);
    ("fetch-api", mkFS "Fetch API"
       "Modern fetch() for network requests"
       (mkSupport "42+" "39+" "10.1+" "14+" "No") None);
    ("urlsearchparams", mkFS "URLSearchParams"
       "URL query string manipulation API"
       (mkSupport "49+" "29+" "10.1+" "17+" "No") None);
    ("url-constructor", mkFS "URL Constructor"
       "URL constructor for URL parsing and manipulation"
       (mkSupport "32+" "26+" "7+" "12+" "No") None);
    ("abortcontroller", mkFS "AbortController"
       "Abort API for cancelling fetch requests"
       (mkSupport "66+" "57+" "11.1+" "16+" "No") None);
    ("intersectionobserver", mkFS "IntersectionObserver"
       "API to observe element visibility changes"
       (mkSupport "51+" "55+" "12.1+" "15+" "No") None);
    ("mutationobserver", mkFS "MutationObserver"
       "API to observe DOM mutations"
       (mkSupport "26+" "14+" "7+" "12+" "11+") None);
    ("resizeobserver", mkFS "ResizeObserver"
       "API to observe element resize events"
       (mkSupport "64+" "69+" "13.1+" "79+" "No") None);
    ("array-fromasync", mkFS "Array.fromAsync()"
       "Create array from async iterable (ES2024)"
       (mkSupport "121+" "119+" "16.4+" "121+" "No") None);
    ("string-iswellformed", mkFS "String.isWellFormed()"
       "Check if string is well-formed Unicode (ES2024)"
       (mkSupport "111+" "119+" "16.4+" "111+" "No") None);
    ("string-towellformed", mkFS "String.toWellFormed()"
       "Convert to well-formed Unicode string (ES2024)"
       (mkSupport "111+" "119+" "16.4+" "111+" "No") None);
    ("performance-now", mkFS "performance.now()"
       "High resolution timestamp API"
       (mkSupport "24+" "15+" "8+" "12+" "10+") None);
    ("queuemicrotask", mkFS "queueMicrotask()"
       "Queue a microtask in the event loop"
       (mkSupport "71+" "69+" "12.1+" "79+" "No") None);
    ("crypto-getrandomvalues", mkFS "crypto.getRandomValues()"
       "Cryptographically secure random values"
       (mkSupport "11+" "26+" "6.1+" "12+" "11+") None);
    ("crypto-randomuuid", mkFS "crypto.randomUUID()"
       "Generate cryptographically secure UUIDs"
       (mkSupport "92+" "95+" "15.4+" "92+" "No") None);
    ("typedarray-at", mkFS "TypedArray.at()"
       "Array.at() method for TypedArrays"
       (mkSupport "92+" "90+" "15.4+" "92+" "No") None);
    ("typedarray-with", mkFS "TypedArray.with()"
       "Array.with() method for TypedArrays"
       (mkSupport "110+" "115+" "16+" "110+" "No") None);
    ("localstorage", mkFS "localStorage"
       "Local storage web API"
       (mkSupport "4+" "3.5+" "4+" "12+" "8+") None);
    ("sessionstorage", mkFS "sessionStorage"
       "Session storage web API"
       (mkSupport "5+" "2+" "4+" "12+" "8+") None);
    ("indexeddb", mkFS "IndexedDB"
       "Client-side database API"
       (mkSupport "24+" "16+" "7+" "12+" "10+") None);
    ("reporterror", mkFS "reportError()"
       "Report unhandled exceptions to global error handlers"
       (mkSupport "95+" "93+" "15.4+" "95+" "No") None)

  ].

Definition featureMap : gmap string FeatureSupport :=
  list_to_map featureMap_entries.

(** ** [extractSnippet] *)

(** The variables of the line-scanning loop. *)
Record ScanState := mkScan {
  currentPos : Z;
  sc_startLine : Z;
  sc_endLine : Z;
  sc_startCol : Z
}.

(** The body of [for (let i = 0; i < lines.length; i++)], run over the
    lines from index [i] on; the [break] ends the recursion. *)
Fixpoint scan_lines (ls : list string) (i start end_ : Z) (st : ScanState)
  : ScanState :=
  match ls with
  | [] => st
  | l :: rest =>
      let lineLength := JS.len l + 1 in
      let st1 :=
        if (currentPos st + lineLength >? start) && (sc_startLine st =? 0)
        then mkScan (currentPos st) (i + 1) (sc_endLine st) (start - currentPos st)
        else st in
      if (currentPos st1 + lineLength >? end_) && (sc_endLine st1 =? 0)
      then mkScan (currentPos st1) (sc_startLine st1) (i + 1) (sc_startCol st1)
      else scan_lines rest (i + 1) start end_
             (mkScan (currentPos st1 + lineLength) (sc_startLine st1)
                     (sc_endLine st1) (sc_startCol st1))
  end.

Definition extractSnippet (code : string) (start end_ : Z) : CodeSnippet :=
  let lines := JS.split_nl code in
  let st := scan_lines lines 0 start end_ (mkScan 0 0 0 0) in
  let contextStart := Z.max 0 (sc_startLine st - 3) in
  let contextEnd := Z.min (Z.of_nat (length lines)) (sc_endLine st + 2) in
  let contextLines := JS.array_slice lines contextStart contextEnd in
  let matchText := JS.string_slice code start end_ in
  {| text := JS.join_nl contextLines;
     startLine := contextStart + 1;
     matchLine := sc_startLine st;
     matchCol := sc_startCol st;
     matchLength := end_ - start;
     matchText := matchText |}.

(** ** The accumulator of one analysis call

    [detectedFeatures] is a [Set<string>]: insertion-ordered, compared by
    value.  [featureSnippets] is a [Map<string, Set<CodeSnippet>>]; its
    inner sets hold objects, which a JavaScript [Set] compares by
    reference.  Every call of [extractSnippet] allocates a fresh object,
    so an object is modelled as a reference together with its fields and
    the accumulator carries the allocation counter. *)

Record SnippetObj := mkObj {
  obj_ref : nat;
  obj_val : CodeSnippet
}.

Record Acc := mkAcc {
  detectedFeatures : list string;
  featureSnippets : gmap string (list SnippetObj);
  next_ref : nat
}.

Definition empty_acc : Acc := mkAcc [] ∅ 0%nat.

(** [Set.prototype.add] on strings (SameValueZero is string equality). *)
Definition set_add_string (k : string) (s : list string) : list string :=
  if existsb (String.eqb k) s then s else s ++ [k].

(** [Set.prototype.add] on objects (SameValueZero is reference identity). *)
Definition set_add_obj (o : SnippetObj) (s : list SnippetObj) : list SnippetObj :=
  if existsb (fun o' => Nat.eqb (obj_ref o') (obj_ref o)) s then s else s ++ [o].

(** [detectedFeatures.add(featureKey)] *)
Definition detectedFeatures_add (k : string) (a : Acc) : Acc :=
  mkAcc (set_add_string k (detectedFeatures a)) (featureSnippets a) (next_ref a).

Section Accumulate.

(** The source text captured by the closures of [analyzeCode]. *)
Variable code : string.

(** [addFeature(featureKey, start, end)]; [None] stands for [null] or
    [undefined]. *)
Definition addFeature (featureKey : string) (start end_ : option Z) (a : Acc)
  : Acc :=
  let a1 := detectedFeatures_add featureKey a in
  match start, end_ with
  | Some s, Some e =>
      let m :=
        match featureSnippets a1 !! featureKey with
        | Some _ => featureSnippets a1
        | None => <[featureKey := []]> (featureSnippets a1)
        end in
      let snippet := mkObj (next_ref a1) (extractSnippet code s e) in
      let set := default [] (m !! featureKey) in
      mkAcc (detectedFeatures a1)
            (<[featureKey := set_add_obj snippet set]> m)
            (S (next_ref a1))
  | _, _ => a1
  end.

End Accumulate.
(** ** Syntax trees

    The parser is an external collaborator; only the shape of its output
    matters here.  A node carries its [type], its offset span (the parser
    sets [start] and [end] on every node it produces), its string-valued
    and boolean fields, and its child nodes in traversal order, each tagged
    with the field it sits in (a list-valued field such as [params]
    contributes one entry per element). *)

#[warnings="-register-all"]
Inductive Node := mkNode {
  ntype : string;
  nstart : Z;
  nend : Z;
  nstrings : list (string * string);
  nflags : list (string * bool);
  nchildren : list (string * Node)
}.

Definition assoc {A} (k : string) (l : list (string * A)) : option A :=
  snd <$> List.find (fun p => String.eqb (fst p) k) l.

(** [node.k] for a string-valued field *)
Definition sfield (n : Node) (k : string) : option string := assoc k (nstrings n).

(** [node.k] for a boolean field; an absent field is [undefined], hence falsy *)
Definition bfield (n : Node) (k : string) : bool := default false (assoc k (nflags n)).

(** [node.k] for a field holding a list of nodes *)
Definition nodes (n : Node) (k : string) : list Node :=
  snd <$> List.filter (fun p => String.eqb (fst p) k) (nchildren n).

(** [node.k] for a field holding one node *)
Definition child (n : Node) (k : string) : option Node := assoc k (nchildren n).

Definition sfield_is (n : Node) (k v : string) : bool :=
  match sfield n k with Some s => String.eqb s v | None => false end.

(** ** What the analyzer uses of [@babel/types] and [@babel/traverse]

    Type tests on nodes, and the rule that decides which nodes open a
    lexical scope.  The scope of a path is the scope opened by the nearest
    node, the node itself included, that passes [isScope]; the parent of a
    scope is the scope of the nearest such node strictly above.  (The
    library's detours for computed method keys, decorators and switch
    discriminants are left out; none of the trees below has them.) *)

Module Babel.

Definition isType (ty : string) (n : Node) : bool := String.eqb (ntype n) ty.

(** [t.isX(value)] on a field that may be absent *)
Definition isOpt (ty : string) (o : option Node) : bool :=
  match o with Some n => isType ty n | None => false end.

(** [t.isIdentifier(o) && o.name === name] *)
Definition isIdentifierNamed (o : option Node) (name : string) : bool :=
  match o with
  | Some n => isType "Identifier" n && sfield_is n "name" name
  | None => false
  end.

Definition Function_types : list string :=
  ["FunctionDeclaration"; "FunctionExpression"; "ObjectMethod";
   "ArrowFunctionExpression"; "ClassMethod"; "ClassPrivateMethod"].

Definition Pattern_types : list string :=
  ["AssignmentPattern"; "ArrayPattern"; "ObjectPattern"].

Definition Scopable_types : list string :=
  ["BlockStatement"; "CatchClause"; "DoWhileStatement"; "ForInStatement";
   "ForStatement"; "FunctionDeclaration"; "FunctionExpression"; "Program";
   "ObjectMethod"; "SwitchStatement"; "WhileStatement";
   "ArrowFunctionExpression"; "ClassExpression"; "ClassDeclaration";
   "ForOfStatement"; "ClassMethod"; "ClassPrivateMethod"; "StaticBlock";
   "TSModuleBlock"].

(** [isScope(node, parent)]: the block that is the body of a function or
    of a catch clause opens no scope of its own. *)
Definition isScope (ty parent_ty : string) : bool :=
  let under_fn :=
    JS.array_includes Function_types parent_ty
    || String.eqb parent_ty "CatchClause" in
  if String.eqb ty "BlockStatement" && under_fn then false
  else if JS.array_includes Pattern_types ty && under_fn then true
  else JS.array_includes Scopable_types ty.

End Babel.

(** Induction on trees: a property holds of every node as soon as it
    passes from the children of a node to the node. *)
Section Node_induction.

Variable P : Node -> Prop.
Hypothesis step : forall ty s e ss fl cs,
  Forall (fun kc => P (snd kc)) cs -> P (mkNode ty s e ss fl cs).

Fixpoint Node_nested_ind (n : Node) : P n :=
  match n with
  | mkNode ty s e ss fl cs =>
      step ty s e ss fl cs
        ((fix all (cs : list (string * Node))
            : Forall (fun kc => P (snd kc)) cs :=
            match cs with
            | [] => @Stdlib.Lists.List.Forall_nil _ _
            | (k, c) :: rest =>
                @Stdlib.Lists.List.Forall_cons _
                  (fun kc => P (snd kc)) (k, c) rest
                  (Node_nested_ind c) (all rest)
            end) cs)
  end.

End Node_induction.

(** ** The visitor table

    A visitor's body is straight-line code whose conditions read the node
    only, so a visitor is given by the calls it makes, in order. *)

Inductive Call :=
| CallAddFeature (featureKey : string) (start end_ : option Z)
| CallDetectedAdd (featureKey : string).

(** [addFeature(key, path.node.start, path.node.end)] *)
Definition add (key : string) (n : Node) : Call :=
  CallAddFeature key (Some (nstart n)) (Some (nend n)).

(** [if (c) { ... }] *)
Definition when (c : bool) (body : list Call) : list Call :=
  if c then body else [].

(** [path.node.params.some(param => t.isX(param))] *)
Definition some_param (ty : string) (n : Node) : bool :=
  existsb (Babel.isType ty) (nodes n "params").

Definition function_boundaries : list string :=
  ["FunctionDeclaration"; "FunctionExpression"; "ArrowFunctionExpression";
   "ObjectMethod"; "ClassMethod"].

(** The [while (parent)] loop of the [AwaitExpression] visitor, run on the
    block types of [parent], [parent.parent], ...; the result is
    [isTopLevel]. *)
Fixpoint isTopLevel_from (parents : list string) : bool :=
  match parents with
  | [] => true
  | block :: outer =>
      if String.eqb block "Program" then true
      else if JS.array_includes function_boundaries block then false
      else isTopLevel_from outer
  end.

(** A visitor receives the node and the block types of [path.scope],
    [path.scope.parent], ... (innermost first). *)
Definition Visitor := Node -> list string -> list Call.

Definition visit_function_params (n : Node) : list Call :=
  when (some_param "AssignmentPattern" n) [add "default-parameters" n]
  ++ when (some_param "RestElement" n) [add "rest-parameters" n].

Definition visit_ArrowFunctionExpression : Visitor := fun n _ =>
  [add "arrow-function" n] ++ visit_function_params n.

Definition visit_VariableDeclaration : Visitor := fun n _ =>
  when (sfield_is n "kind" "const") [add "const-declaration" n]
  ++ when (sfield_is n "kind" "let") [add "let-declaration" n].

Definition visit_AwaitExpression : Visitor := fun n scope =>
  [add "async-await" n]
  ++ when (isTopLevel_from (tail scope)) [add "top-level-await" n].

Definition visit_function : Visitor := fun n _ =>
  when (bfield n "async") [add "async-await" n]
  ++ when (bfield n "generator") [add "generator-function" n]
  ++ visit_function_params n.

(** A run of [if (name === X) addFeature(K, ...)] statements, as the table
    of the names tested and the keys recorded for each, in source order. *)
Definition by_name (table : list (string * list string)) (name : string)
  (n : Node) : list Call :=
  flat_map (fun row => when (String.eqb name (fst row))
                         (List.map (fun k => add k n) (snd row))) table.

Definition name_of (o : option Node) : string :=
  default "" (o ≫= fun c => sfield c "name").

Definition new_builtins : list (string * list string) :=
  [("Promise", ["promise"]); ("Map", ["map-object"]); ("Set", ["set-object"]);
   ("WeakMap", ["weakmap"]); ("WeakSet", ["weakset"]); ("WeakRef", ["weakref"]);
   ("FinalizationRegistry", ["finalizationregistry"]); ("Proxy", ["proxy"]);
   ("SharedArrayBuffer", ["sharedarraybuffer"]);
   ("BigInt64Array", ["bigint64array"]); ("BigUint64Array", ["biguint64array"]);
   ("AggregateError", ["aggregate-error"])].

Definition visit_NewExpression : Visitor := fun n _ =>
  let callee := child n "callee" in
  when (Babel.isOpt "Identifier" callee)
    (let name := name_of callee in
     by_name new_builtins name n
     ++ when (String.eqb name "Error"
              && (2 <=? Z.of_nat (length (nodes n "arguments"))))
          (when (Babel.isOpt "ObjectExpression" (nodes n "arguments" !! 1%nat))
             [add "error-cause" n]))
  ++ when (Babel.isOpt "MemberExpression" callee
           && Babel.isIdentifierNamed (callee ≫= fun c => child c "object") "Intl")
       (let property := callee ≫= fun c => child c "property" in
        when (Babel.isOpt "Identifier" property)
          (by_name [("RelativeTimeFormat", ["intl-relativetimeformat"]);
                    ("ListFormat", ["intl-listformat"])]
                   (name_of property) n)).

Definition visit_ClassProperty : Visitor := fun n _ =>
  when (bfield n "static") [add "static-class-fields" n].

Definition visit_ForOfStatement : Visitor := fun n _ =>
  [add "for-of" n] ++ when (bfield n "await") [add "async-iteration" n].

Definition visit_LogicalExpression : Visitor := fun n _ =>
  when (sfield_is n "operator" "??") [add "nullish-coalescing" n].

Definition visit_AssignmentExpression : Visitor := fun n _ =>
  when (JS.array_includes ["&&="; "||="; "??="] (default "" (sfield n "operator")))
    [add "logical-assignment" n].

Definition visit_ObjectProperty : Visitor := fun n _ =>
  when (bfield n "computed") [add "computed-property" n]
  ++ when (bfield n "shorthand") [add "shorthand-property" n].

Definition visit_ImportDeclaration : Visitor := fun n _ =>
  [CallDetectedAdd "import-statement"]
  ++ when (0 <? Z.of_nat (length (nodes n "attributes")))
       [add "import-attributes" n]
  ++ when (0 <? Z.of_nat (length (nodes n "assertions")))
       [add "import-assertions" n].

(** [extra.raw] is kept among the string fields under the name ["raw"]. *)
Definition visit_NumericLiteral : Visitor := fun n _ =>
  when (match sfield n "raw" with
        | Some raw => JS.includes raw "_"
        | None => false
        end)
    [CallDetectedAdd "numeric-separators"].

Definition call_globals : list (string * list string) :=
  [("Symbol", ["symbol"]); ("structuredClone", ["structuredclone"]);
   ("fetch", ["fetch-api"]); ("queueMicrotask", ["queuemicrotask"]);
   ("reportError", ["reporterror"]); ("AbortController", ["abortcontroller"]);
   ("IntersectionObserver", ["intersectionobserver"]);
   ("MutationObserver", ["mutationobserver"]);
   ("ResizeObserver", ["resizeobserver"]); ("URL", ["url-constructor"]);
   ("URLSearchParams", ["urlsearchparams"])].

Definition call_methods : list (string * list string) :=
  [("find", ["array-find"]); ("findIndex", ["array-findindex"]);
   ("findLast", ["array-findlast"]); ("findLastIndex", ["array-findlastindex"]);
   ("at", ["array-at"; "string-at"]);
   ("includes", ["array-includes"; "string-includes"]);
   ("flat", ["array-flat"]); ("flatMap", ["array-flatmap"]);
   ("startsWith", ["string-startswith"]); ("endsWith", ["string-endswith"]);
   ("repeat", ["string-repeat"]); ("padStart", ["string-padstart"]);
   ("padEnd", ["string-padend"]); ("replaceAll", ["string-replaceall"]);
   ("matchAll", ["string-matchall"]); ("trimStart", ["string-trimstart"]);
   ("trimEnd", ["string-trimend"]); ("toReversed", ["array-toreversed"]);
   ("toSorted", ["array-tosorted"]); ("toSpliced", ["array-tospliced"]);
   ("with", ["array-with"])].

Definition call_late_methods : list (string * list string) :=
  [("isWellFormed", ["string-iswellformed"]);
   ("toWellFormed", ["string-towellformed"]);
   ("at", ["array-at"; "string-at"; "typedarray-at"]);
   ("with", ["array-with"; "typedarray-with"])].

(** The [if (t.isIdentifier(object))] block of static methods. *)
Definition call_statics (objectName methodName : string) (n : Node) : list Call :=
  when (String.eqb objectName "Array")
    (by_name [("from", ["array-from"]); ("fromAsync", ["array-fromasync"])]
             methodName n)
  ++ when (String.eqb objectName "Object")
       (by_name [("assign", ["object-assign"]); ("keys", ["object-keys"]);
                 ("values", ["object-values"]); ("entries", ["object-entries"]);
                 ("fromEntries", ["object-fromentries"]);
                 ("hasOwn", ["object-hasown"]); ("groupBy", ["object-groupby"])]
                methodName n)
  ++ when (String.eqb objectName "Promise")
       (by_name [("allSettled", ["promise-allsettled"]); ("any", ["promise-any"])]
                methodName n)
  ++ when (String.eqb objectName "Reflect") [add "reflect" n]
  ++ when (String.eqb objectName "JSON" && String.eqb methodName "parse")
       (when (3 <=? Z.of_nat (length (nodes n "arguments")))
          [add "json-parse-reviver" n])
  ++ when (String.eqb objectName "Atomics") [add "atomics" n]
  ++ when (String.eqb objectName "crypto")
       (by_name [("getRandomValues", ["crypto-getrandomvalues"]);
                 ("randomUUID", ["crypto-randomuuid"])]
                methodName n)
  ++ when (String.eqb objectName "performance" && String.eqb methodName "now")
       [add "performance-now" n].

Definition visit_CallExpression : Visitor := fun n _ =>
  let callee := child n "callee" in
  when (Babel.isOpt "Identifier" callee) (by_name call_globals (name_of callee) n)
  ++ when (Babel.isOpt "MemberExpression" callee)
       (let object := callee ≫= fun c => child c "object" in
        let property := callee ≫= fun c => child c "property" in
        when (Babel.isOpt "Identifier" property)
          (let methodName := name_of property in
           by_name call_methods methodName n
           ++ when (Babel.isOpt "Identifier" object)
                (call_statics (name_of object) methodName n)
           ++ by_name call_late_methods methodName n)).

Definition visit_MemberExpression : Visitor := fun n _ =>
  let object := child n "object" in
  let property := child n "property" in
  when (Babel.isIdentifierNamed object "globalThis") [add "globalthis" n]
  ++ when (Babel.isIdentifierNamed object "import"
           && Babel.isIdentifierNamed property "meta") [add "import-meta" n]
  ++ when (Babel.isIdentifierNamed object "localStorage") [add "localstorage" n]
  ++ when (Babel.isIdentifierNamed object "sessionStorage") [add "sessionstorage" n]
  ++ when (Babel.isIdentifierNamed object "indexedDB") [add "indexeddb" n].

Definition visit_RegExpLiteral : Visitor := fun n _ =>
  let flags := default "" (sfield n "flags") in
  let pattern := default "" (sfield n "pattern") in
  when (JS.includes flags "s") [add "regex-s-flag" n]
  ++ when (JS.includes flags "d") [add "regex-match-indices" n]
  ++ when (JS.includes flags "v") [add "regex-v-flag" n]
  ++ when (JS.includes pattern "(?<") [add "regex-named-groups" n]
  ++ when (JS.includes pattern "(?<=" || JS.includes pattern "(?<!")
       [add "regex-lookbehind" n]
  ++ when (JS.includes pattern "\p{") [add "regex-unicode-property" n].

(** The object literal passed to [traverse], keyed by node type. *)
Definition visitors : list (string * Visitor) :=
  [("ArrowFunctionExpression", visit_ArrowFunctionExpression);
   ("VariableDeclaration", visit_VariableDeclaration);
   ("TemplateLiteral", fun n _ => [add "template-literal" n]);
   ("ObjectPattern", fun n _ => [add "destructuring" n]);
   ("ArrayPattern", fun n _ => [add "destructuring" n]);
   ("SpreadElement", fun n _ => [add "spread-operator" n]);
   ("RestElement", fun n _ => [add "spread-operator" n]);
   ("AwaitExpression", visit_AwaitExpression);
   ("FunctionDeclaration", visit_function);
   ("FunctionExpression", visit_function);
   ("NewExpression", visit_NewExpression);
   ("ClassDeclaration", fun n _ => [add "class-declaration" n]);
   ("ClassExpression", fun n _ => [add "class-declaration" n]);
   ("ClassProperty", visit_ClassProperty);
   ("PrivateName", fun n _ => [add "private-fields" n]);
   ("ForOfStatement", visit_ForOfStatement);
   ("OptionalMemberExpression", fun n _ => [add "optional-chaining" n]);
   ("OptionalCallExpression", fun n _ => [add "optional-chaining" n]);
   ("LogicalExpression", visit_LogicalExpression);
   ("AssignmentExpression", visit_AssignmentExpression);
   ("ObjectProperty", visit_ObjectProperty);
   ("ObjectMethod", fun _ _ => [CallDetectedAdd "method-definition"]);
   ("ImportDeclaration", visit_ImportDeclaration);
   ("ExportNamedDeclaration", fun _ _ => [CallDetectedAdd "export-statement"]);
   ("ExportDefaultDeclaration", fun _ _ => [CallDetectedAdd "export-statement"]);
   ("Import", fun _ _ => [CallDetectedAdd "dynamic-import"]);
   ("NumericLiteral", visit_NumericLiteral);
   ("BigIntLiteral", fun _ _ => [CallDetectedAdd "bigint"]);
   ("CallExpression", visit_CallExpression);
   ("MemberExpression", visit_MemberExpression);
   ("RegExpLiteral", visit_RegExpLiteral);
   ("ClassPrivateMethod", fun n _ => [add "private-methods" n])].

(** The calls made on entering node [n]. *)
Definition visit (n : Node) (scope : list string) : list Call :=
  match assoc (ntype n) visitors with
  | Some v => v n scope
  | None => []
  end.

(** ** Traversal and accumulation *)

Section Run.

Variable code : string.

Definition run_call (c : Call) (a : Acc) : Acc :=
  match c with
  | CallAddFeature k s e => addFeature code k s e a
  | CallDetectedAdd k => detectedFeatures_add k a
  end.

Definition run_calls (cs : list Call) (a : Acc) : Acc :=
  fold_left (fun a c => run_call c a) cs a.

(** Depth-first, visitors on entry.  [scope] holds the block types of the
    scopes enclosing the parent; the node's own [path.scope] prepends the
    node itself when it opens a scope. *)
Fixpoint traverse_node (parent_ty : string) (scope : list string) (n : Node)
  (a : Acc) : Acc :=
  let scope' :=
    if Babel.isScope (ntype n) parent_ty then ntype n :: scope else scope in
  let a1 := run_calls (visit n scope') a in
  (fix children (cs : list (string * Node)) (a : Acc) : Acc :=
     match cs with
     | [] => a
     | (_, c) :: rest => children rest (traverse_node (ntype n) scope' c a)
     end) (nchildren n) a1.

(** [traverse(ast, visitors)]: the root itself is not visited. *)
Definition traverse (ast : Node) (a : Acc) : Acc :=
  fold_left (fun a kc => traverse_node (ntype ast) [] (snd kc) a)
            (nchildren ast) a.

End Run.

(** The calls a traversal makes, in order: those of the node on entry,
    then those of its children. *)
Fixpoint node_calls (parent_ty : string) (scope : list string) (n : Node)
  : list Call :=
  let scope' :=
    if Babel.isScope (ntype n) parent_ty then ntype n :: scope else scope in
  visit n scope'
  ++ (fix children (cs : list (string * Node)) : list Call :=
        match cs with
        | [] => []
        | (_, c) :: rest => node_calls (ntype n) scope' c ++ children rest
        end) (nchildren n).

Definition tree_calls (ast : Node) : list Call :=
  flat_map (fun kc => node_calls (ntype ast) [] (snd kc)) (nchildren ast).

(** ** Aggregation *)

Inductive Browser := Chrome | Firefox | Safari | Edge | IE.

(** [const browsers = ['chrome', 'firefox', 'safari', 'edge', 'ie']] *)
Definition browsers : list Browser := [Chrome; Firefox; Safari; Edge; IE].

(** [support[browser]] *)
Definition slot (b : Browser) (s : Support) : string :=
  match b with
  | Chrome => chrome s
  | Firefox => firefox s
  | Safari => safari s
  | Edge => edge s
  | IE => ie s
  end.

(** The numeric versions collected for one browser: the chain
    [.map(...).filter(...).map(...).filter(...)]. *)
Definition slot_versions (b : Browser) (fs : list FeatureSupport)
  : list JS.number :=
  List.filter (fun version => negb (JS.isNaN version))
    (List.map (fun version =>
                 if JS.includes version "*"
                 then JS.parseFloat (JS.keep_digits_dots version)
                 else JS.parseFloat (JS.keep_digits_dots version))
       (List.filter (fun version => negb (String.eqb version "No"))
          (List.map (fun f => slot b (support f)) fs))).

(** The body of [browsers.forEach(browser => ...)]: the value stored under
    [minimumVersions[browser]]. *)
Definition minimum_version (b : Browser) (fs : list FeatureSupport) : string :=
  let versions := slot_versions b fs in
  if Z.of_nat (length versions) =? 0 then "No"
  else
    let requiredVersion := JS.Math_max versions in
    JS.toString requiredVersion +:+ "+".

Definition calculateMinimumVersions (fs : list FeatureSupport) : Support :=
  {| chrome := minimum_version Chrome fs;
     firefox := minimum_version Firefox fs;
     safari := minimum_version Safari fs;
     edge := minimum_version Edge fs;
     ie := minimum_version IE fs |}.

(** [Array.from(detectedFeatures).map(...).filter(Boolean)] *)
Definition build_features (a : Acc) : list DetectedFeature :=
  omap (fun featureKey =>
          match featureMap !! featureKey with
          | None => None
          | Some featureSupport =>
              let codeSnippets :=
                match featureSnippets a !! featureKey with
                | Some snippets => obj_val <$> snippets
                | None => []
                end in
              Some (mkDF featureSupport codeSnippets)
          end)
       (detectedFeatures a).

Definition is_modern (f : DetectedFeature) : bool :=
  String.eqb (ie (support f)) "No" || JS.includes (ie (support f)) "*".

Definition is_legacy_compatible (f : DetectedFeature) : bool :=
  negb (String.eqb (ie (support f)) "No").

(** The result object built from the finalized feature list. *)
Definition build_result (features : list DetectedFeature) : AnalysisResult :=
  let modernFeatures := Z.of_nat (length (List.filter is_modern features)) in
  let legacySupport := forallb is_legacy_compatible features in
  let minimumVersions := calculateMinimumVersions (base <$> features) in
  {| features := features;
     summary := {| totalFeatures := Z.of_nat (length features);
                   modernFeatures := modernFeatures;
                   legacySupport := legacySupport |};
     minimumVersions := minimumVersions |}.

(** ** [analyzeCode] *)

(** What the parser throws: an [Error] with its message, or anything else. *)
Inductive Thrown :=
| ThrownError (message : string)
| ThrownOther.

Inductive ParseResult :=
| Parsed (ast : Node)
| ParseThrows (e : Thrown).

(** The promise returned by [analyzeCode] either resolves with a result or
    rejects with an [Error] carrying a message. *)
Inductive Outcome :=
| Resolved (r : AnalysisResult)
| Rejected (message : string).

Section Analyze.

(** [parse(code, options)] of [@babel/parser], with the fixed options. *)
Variable parse : string -> ParseResult.

(** The accumulator when the traversal has finished, if the parser
    produced a tree. *)
Definition detect (code : string) : Thrown + Acc :=
  let a0 :=
    if JS.startsWith code "#!"
    then addFeature code "hashbang" (Some 0) (Some 2) empty_acc
    else empty_acc in
  match parse code with
  | ParseThrows e => inl e
  | Parsed ast => inr (traverse code ast a0)
  end.

Definition analyzeCode (code : string) : Outcome :=
  match detect code with
  | inr a => Resolved (build_result (build_features a))
  | inl error =>
      Rejected ("Failed to parse JavaScript code: "
                +:+ match error with
                    | ThrownError message => message
                    | ThrownOther => "Unknown error"
                    end)
  end.

End Analyze.

(** ** The result view ([components/BrowserSupportResult.tsx]) *)

Module View.

(** [Object.values(support)], in the order of the object's properties. *)
Definition support_values (s : Support) : list string :=
  [chrome s; firefox s; safari s; edge s; ie s].

(** The class string that colours one support entry. *)
Definition getSupportColor (support : string) : string :=
  if String.eqb support "No"
  then "text-red-300 bg-red-600/20 border border-red-500/30"
  else if JS.includes support "*"
  then "text-yellow-300 bg-yellow-600/20 border border-yellow-500/30"
  else "text-green-300 bg-green-600/20 border border-green-500/30".

(** The warning badge of the compact feature summary. *)
Definition hasIssues (detected : DetectedFeature) : bool :=
  String.eqb (ie (support detected)) "No"
  || existsb (fun entry => JS.includes entry "*")
             (support_values (support detected)).

(** The count shown under "Legacy Compatible". *)
Definition legacyCompatibleCount (analysis : AnalysisResult) : Z :=
  totalFeatures (summary analysis) - modernFeatures (summary analysis).

(** The display categories, by feature name, in source order. *)
Definition categories : list (string * list string) :=
  [
   ("syntax",
    ["Arrow Functions"; "Classes"; "Template Literals";
     "Destructuring Assignment"; "Spread Operator"; "Const Declaration";
     "Let Declaration"; "Default Parameters"; "Rest Parameters";
     "Generator Functions"; "Private Class Fields"; "Static Class Fields";
     "Private Class Methods"; "Decorators"; "Hashbang Grammar"]);
   ("methods",
    ["Array.from()"; "Array.fromAsync()"; "Array.find()";
     "Array.findIndex()"; "Array.findLast()"; "Array.findLastIndex()";
     "Array.includes()"; "Array.flat()"; "Array.flatMap()";
     "Array.at()"; "Array.toReversed()"; "Array.toSorted()";
     "Array.toSpliced()"; "Array.with()"; "TypedArray.at()";
     "TypedArray.with()"; "Object.assign()"; "Object.keys()";
     "Object.values()"; "Object.entries()"; "Object.fromEntries()";
     "Object.hasOwn()"; "Object.groupBy()"; "String.includes()";
     "String.startsWith()"; "String.endsWith()"; "String.repeat()";
     "String.padStart()"; "String.padEnd()"; "String.replaceAll()";
     "String.at()"; "String.matchAll()"; "String.trimStart()";
     "String.trimEnd()"; "String.isWellFormed()";
     "String.toWellFormed()"; "structuredClone()"; "queueMicrotask()";
     "reportError()"]);
   ("async",
    ["Async/Await"; "Promises"; "Promise.allSettled()"; "Promise.any()";
     "Top-level Await"; "Async Iteration"]);
   ("modules",
    ["ES6 Modules (import)"; "ES6 Modules (export)"; "Dynamic Import";
     "import.meta"; "Import Assertions"; "Import Attributes"]);
   ("advanced",
    ["Optional Chaining"; "Nullish Coalescing"; "BigInt";
     "Logical Assignment"; "Numeric Separators"; "globalThis";
     "Iterator Helpers"]);
   ("dataStructures",
    ["Map Object"; "Set Object"; "WeakMap"; "WeakSet"; "WeakRef";
     "FinalizationRegistry"; "Symbol"; "Proxy"; "Reflect";
     "SharedArrayBuffer"; "BigInt64Array"; "BigUint64Array";
     "Resizable ArrayBuffer"]);
   ("regex",
    ["RegExp Named Capture Groups"; "RegExp Lookbehind Assertions";
     "RegExp Unicode Property Escapes"; "RegExp dotAll Flag";
     "RegExp Match Indices"; "RegExp v Flag"]);
   ("intl",
    ["Intl.RelativeTimeFormat"; "Intl.ListFormat"]);
   ("error",
    ["Error.cause"; "AggregateError"]);
   ("concurrency",
    ["Atomics"; "SharedArrayBuffer"]);
   ("webApis",
    ["Fetch API"; "URLSearchParams"; "URL Constructor";
     "AbortController"; "IntersectionObserver"; "MutationObserver";
     "ResizeObserver"; "performance.now()"; "crypto.getRandomValues()";
     "crypto.randomUUID()"; "localStorage"; "sessionStorage";
     "IndexedDB"]);
   ("experimental",
    ["Temporal API"; "Decorators"; "Iterator Helpers"])
  ].

(** [counts[category]++] *)
Definition increment (counts : gmap string Z) (category : string)
  : gmap string Z :=
  <[category := default 0 (counts !! category) + 1]> counts.

(** The initial [counts] object: every category at 0. *)
Definition zero_counts : gmap string Z :=
  list_to_map ((fun row => (fst row, 0)) <$> categories).

(** The two nested [forEach] loops over features and categories. *)
Definition getFeatureCategories (analysis : AnalysisResult) : gmap string Z :=
  fold_left
    (fun counts detected =>
       fold_left
         (fun counts row =>
            if JS.array_includes (snd row) (feature (base detected))
            then increment counts (fst row)
            else counts)
         categories counts)
    (features analysis) zero_counts.

(** One line of a rendered snippet: shown as it is, or, on the match line,
    cut into the text before the match, the highlighted match and the text
    after it. *)
Inductive RenderedLine :=
| PlainLine (lineNumber : Z) (line : string)
| MatchLine (lineNumber : Z) (before highlighted after : string).

(** [snippet.text.split('\n').map((line, lineIndex) => ...)] *)
Definition render_snippet (snippet : CodeSnippet) : list RenderedLine :=
  imap (fun lineIndex line =>
          let lineNumber := startLine snippet + Z.of_nat lineIndex in
          let isMatchLine := lineNumber =? matchLine snippet in
          if isMatchLine
          then MatchLine lineNumber
                 (JS.substring line 0 (matchCol snippet))
                 (JS.substring line (matchCol snippet)
                    (matchCol snippet + matchLength snippet))
                 (JS.substring_from line
                    (matchCol snippet + matchLength snippet))
          else PlainLine lineNumber line)
       (JS.split_nl (text snippet)).

End View.

(** ** The page ([page.tsx]) *)

Module Page.

(** The four pieces of React state of the page. *)
Record State := mkState {
  code : string;
  analysis : option AnalysisResult;
  loading : bool;
  error : option string
}.

(** [useState] initial values. *)
Definition initial : State := mkState "" None false None.

Section Handlers.

Variable parse : string -> ParseResult.

(** [handleAnalyze]: the state once the handler has run to its end. *)
Definition handleAnalyze (st : State) : State :=
  if String.eqb (JS.trim (code st)) ""
  then mkState (code st) (analysis st) (loading st)
               (Some "Please enter some JavaScript code to analyze")
  else
    match analyzeCode parse (code st) with
    | Resolved result => mkState (code st) (Some result) false None
    | Rejected message => mkState (code st) (analysis st) false (Some message)
    end.

End Handlers.

(** [handleClear] *)
Definition handleClear (st : State) : State :=
  mkState "" None (loading st) None.

End Page.

(** ** Trees of the scenario inputs

    The trees [@babel/parser] builds for the inputs of the scenarios, with
    the fields the visitors read.  Children are listed in the order of the
    traversal. *)

Definition leaf (ty : string) (s e : Z) : Node := mkNode ty s e [] [] [].

Definition Identifier (name : string) (s e : Z) : Node :=
  mkNode "Identifier" s e [("name", name)] [] [].

Definition File (s e : Z) (body : list Node) : Node :=
  mkNode "File" s e [] []
    [("program", mkNode "Program" s e [("sourceType", "module")] []
                   (List.map (fun n => ("body", n)) body))].

(** [g()] at offset [s] *)
Definition call_g (s : Z) : Node :=
  mkNode "CallExpression" s (s + 3) [] [] [("callee", Identifier "g" s (s + 1))].

(** [await g();] at offset [s] *)
Definition await_g_statement (s : Z) : Node :=
  mkNode "ExpressionStatement" s (s + 10) [] []
    [("expression",
      mkNode "AwaitExpression" s (s + 9) [] [] [("argument", call_g (s + 6))])].

Definition src_async_function : string := "async function f() { await g(); }".

Definition ast_async_function : Node :=
  File 0 33
    [mkNode "FunctionDeclaration" 0 33 []
       [("async", true); ("generator", false)]
       [("id", Identifier "f" 15 16);
        ("body", mkNode "BlockStatement" 19 33 [] []
                   [("body", await_g_statement 21)])]].

Definition src_top_level_await : string := "await g();".

Definition ast_top_level_await : Node := File 0 10 [await_g_statement 0].

Definition src_async_arrow : string := "const h = async () => { await g(); };".

Definition ast_async_arrow : Node :=
  File 0 37
    [mkNode "VariableDeclaration" 0 37 [("kind", "const")] []
       [("declarations",
         mkNode "VariableDeclarator" 6 36 [] []
           [("id", Identifier "h" 6 7);
            ("init",
             mkNode "ArrowFunctionExpression" 10 36 []
               [("async", true); ("generator", false)]
               [("body", mkNode "BlockStatement" 22 36 [] []
                           [("body", await_g_statement 24)])])])]].

Definition src_arr_at : string := "arr.at(0)".

Definition ast_arr_at : Node :=
  File 0 9
    [mkNode "ExpressionStatement" 0 9 [] []
       [("expression",
         mkNode "CallExpression" 0 9 [] []
           [("callee",
             mkNode "MemberExpression" 0 6 [] [("computed", false)]
               [("object", Identifier "arr" 0 3);
                ("property", Identifier "at" 4 6)]);
            ("arguments", mkNode "NumericLiteral" 7 8 [("raw", "0")] [] [])])]].

Definition src_bigint : string := "1n;".

Definition ast_bigint : Node :=
  File 0 3
    [mkNode "ExpressionStatement" 0 3 [] []
       [("expression", mkNode "BigIntLiteral" 0 2 [("raw", "1n")] [] [])]].

Definition ast_empty : Node := File 0 0 [].

(** A parser defined on the scenario inputs only; on anything else it
    throws a syntax error. *)
Definition scenario_parse (code : string) : ParseResult :=
  match assoc code
          [(src_async_function, ast_async_function);
           (src_top_level_await, ast_top_level_await);
           (src_async_arrow, ast_async_arrow);
           (src_arr_at, ast_arr_at);
           (src_bigint, ast_bigint);
           ("", ast_empty)] with
  | Some ast => Parsed ast
  | None => ParseThrows (ThrownError "Unexpected token (1:0)")
  end.

(** ** Properties read off the specification

    The definitions below follow the wording of the specification; the
    theorems compare them with the definitions taken from the code. *)

(** The cumulative character length of the first [k] lines, each counted
    with its line break; also the offset at which line [k + 1] starts. *)
Definition line_offset (lines : list string) (k : nat) : Z :=
  foldr (fun l acc => JS.len l + 1 + acc) 0 (take k lines).

(** [L] is the 1-based number of the first line whose cumulative length
    exceeds [off]. *)
Definition first_line_exceeding (lines : list string) (off L : Z) : Prop :=
  1 <= L <= Z.of_nat (length lines)
  /\ off < line_offset lines (Z.to_nat L)
  /\ forall j, 1 <= j < L -> line_offset lines (Z.to_nat j) <= off.

(** Lines [a] to [b] of the document, 1-based and inclusive. *)
Definition lines_between (lines : list string) (a b : Z) : list string :=
  take (Z.to_nat (b - a + 1)) (drop (Z.to_nat (a - 1)) lines).

(** What the Snippet Extractor is specified to return for the range
    [start, end_) of [code]. *)
Definition snippet_spec (code : string) (start end_ : Z) (ev : CodeSnippet)
  : Prop :=
  let lines := JS.split_nl code in
  let n := Z.of_nat (length lines) in
  exists L E,
    first_line_exceeding lines start L
    /\ first_line_exceeding lines end_ E
    /\ matchLine ev = L
    /\ matchCol ev = start - line_offset lines (Z.to_nat (L - 1))
    /\ startLine ev = Z.max 1 (L - 2)
    /\ text ev = JS.join_nl (lines_between lines (Z.max 1 (L - 2)) (Z.min n (E + 2)))
    /\ matchText ev = String.substring (Z.to_nat start) (Z.to_nat (end_ - start)) code
    /\ matchLength ev = end_ - start.

(** The keys that some visitor records with a bare
    [detectedFeatures.add], without a call of [addFeature]. *)
Definition bare_keys : list string :=
  ["method-definition"; "import-statement"; "export-statement";
   "dynamic-import"; "numeric-separators"; "bigint"].

(** Key [k] has at least one stored evidence. *)
Definition has_evidence (a : Acc) (k : string) : Prop :=
  exists o os, featureSnippets a !! k = Some (o :: os).

(** No reference held in the accumulator will be allocated again. *)
Definition fresh (a : Acc) : Prop :=
  forall k os o,
    featureSnippets a !! k = Some os -> o ∈ os -> (obj_ref o < next_ref a)%nat.

(** The stored evidence of key [k], in insertion order. *)
Definition snippets_of (a : Acc) (k : string) : list SnippetObj :=
  default [] (featureSnippets a !! k).

(** What a visitor may do with a matched node [n]: submit a key with the
    span of [n] through [addFeature], or record one of [bare_keys] with no
    span. *)
Definition call_ok (n : Node) (c : Call) : Prop :=
  (exists k, c = CallAddFeature k (Some (nstart n)) (Some (nend n)))
  \/ (exists k, c = CallDetectedAdd k /\ k ∈ bare_keys).

(** The same, forgetting which node the span belongs to. *)
Definition call_spanned (c : Call) : Prop :=
  match c with
  | CallAddFeature _ (Some _) (Some _) => True
  | CallAddFeature _ _ _ => False
  | CallDetectedAdd k => k ∈ bare_keys
  end.

(** Every recorded key outside [bare_keys] has evidence. *)
Definition evidenced (a : Acc) : Prop :=
  forall k, k ∈ detectedFeatures a -> k ∈ bare_keys \/ has_evidence a k.

(** The partial-support marker occurs in [s]. *)
Definition has_marker (s : string) : Prop :=
  "*"%char ∈ list_ascii_of_string s.

(** A feature is modern-only when its legacy-engine slot is [No] or carries
    the partial-support marker. *)
Definition modern_only (f : DetectedFeature) : Prop :=
  ie (support f) = "No" \/ has_marker (ie (support f)).

(** The keys with an entry in the catalogue. *)
Definition in_catalogue (k : string) : Prop := is_Some (featureMap !! k).

(** The number the code reads from a version string:
    [parseFloat(version.replace(/[^0-9.]/g, ''))]. *)
Definition numeric_prefix (s : string) : JS.number :=
  JS.parseFloat (JS.keep_digits_dots s).

(** The numerals the code keeps for one browser slot: the slot of every
    feature, without the [No] entries, each read by [numeric_prefix],
    without those that are no number. *)
Definition slot_values (b : Browser) (fs : list FeatureSupport)
  : list JS.decimal :=
  omap (fun f => match numeric_prefix (slot b (support f)) with
                 | JS.Finite d => Some d
                 | _ => None
                 end)
       (filter (fun f => slot b (support f) <> "No") fs).

Fixpoint all_digits (s : string) : bool :=
  match s with
  | EmptyString => true
  | String c rest => JS.is_digit c && all_digits rest
  end.

(** The numerals [toString] prints: digits only, no superfluous zero at
    either end. *)
Definition canonical (d : JS.decimal) : Prop :=
  all_digits (JS.int_part d) = true
  /\ all_digits (JS.frac_part d) = true
  /\ JS.drop_leading_zeros (JS.int_part d) = JS.int_part d
  /\ JS.drop_trailing_zeros (JS.frac_part d) = JS.frac_part d.

(** *** Version numbers, in the words of the specification

    Nothing below uses the primitives of [JS]: a version string is stripped
    and read character by character, and the number read is a rational. *)

(** The characters that survive the stripping: digits and the period. *)
Definition is_digit_or_period (c : ascii) : bool :=
  existsb (Ascii.eqb c) (list_ascii_of_string "0123456789.").

(** A version string with all non-digit, non-period characters stripped. *)
Definition stripped (s : string) : string :=
  string_of_list_ascii
    (List.filter is_digit_or_period (list_ascii_of_string s)).

(** The ten digits, in order. *)
Definition digit_characters : list ascii :=
  list_ascii_of_string "0123456789".

(** The digit a character stands for: its place among the ten digits. *)
Definition digit_of (c : ascii) : option Z :=
  (fun found => Z.of_nat (fst found))
    <$> list_find (fun digit => digit = c) digit_characters.

(** The digits a text starts with, and what follows them. *)
Fixpoint leading_digits (cs : list ascii) : list Z * list ascii :=
  match cs with
  | [] => ([], [])
  | c :: rest =>
      match digit_of c with
      | Some d => let (ds, tl) := leading_digits rest in (d :: ds, tl)
      | None => ([], cs)
      end
  end.

(** The natural number written by a sequence of digits: each digit counts
    for ten to the number of digits after it. *)
Fixpoint whole (ds : list Z) : Z :=
  match ds with
  | [] => 0
  | d :: rest => d * 10 ^ Z.of_nat (length rest) + whole rest
  end.

(** The number below one written by a sequence of digits after the
    period. *)
Fixpoint fractional (ds : list Z) : Q :=
  match ds with
  | [] => 0%Q
  | d :: rest => ((inject_Z d + fractional rest) / 10)%Q
  end.

(** The floating-point value of a text of digits and periods: that of its
    leading digits and, after a period that follows them, of the digits
    after the period; no value when there is no digit in either place. *)
Definition float_value (s : string) : option Q :=
  let (ip, rest) := leading_digits (list_ascii_of_string s) in
  let fp :=
    match rest with
    | c :: tl => if Ascii.eqb c "." then fst (leading_digits tl) else []
    | [] => []
    end in
  match ip, fp with
  | [], [] => None
  | _, _ => Some (inject_Z (whole ip) + fractional fp)%Q
  end.

(** The numeric value of a version string: strip, then take the
    floating-point value. *)
Definition version_value (s : string) : option Q := float_value (stripped s).

(** The numeric values that survive for one browser slot: the version
    strings of that slot over all features, without the [No] entries, each
    parsed, without those that give no number. *)
Definition surviving_values (b : Browser) (fs : list FeatureSupport) : list Q :=
  omap version_value
    (filter (fun version => version <> "No")
            ((fun f => slot b (support f)) <$> fs)).

(** [numeral] is the plain decimal notation of [q]: an integer part with no
    superfluous leading zero, followed, when there is a fraction, by a
    period and a fraction part with no trailing zero; read as a number it
    gives [q]. *)
Definition decimal_notation (numeral : string) (q : Q) : Prop :=
  exists ip fp : list ascii,
    list_ascii_of_string numeral
    = ip ++ match fp with [] => [] | _ :: _ => "."%char :: fp end
    /\ Forall (fun c => is_Some (digit_of c)) (ip ++ fp)
    /\ ip <> []
    /\ (head ip = Some "0"%char -> ip = ["0"%char])
    /\ last fp <> Some "0"%char
    /\ exists p, float_value numeral = Some p /\ (p == q)%Q.

(** The rational [q] is the value of the numeral [d] of the code. *)
Definition reads (d : JS.decimal) (q : Q) : Prop := (q == JS.value d)%Q.

(** The code units of a text of digits, each less the code unit of [0]. *)
Definition digits_of (s : string) : list Z :=
  (fun c => Z.of_nat (nat_of_ascii c) - 48) <$> list_ascii_of_string s.

(** The key a call records. *)
Definition call_key (c : Call) : string :=
  match c with
  | CallAddFeature k _ _ => k
  | CallDetectedAdd k => k
  end.

(** The spans submitted for key [k] by a sequence of calls, in order. *)
Definition submissions (k : string) (cs : list Call) : list (Z * Z) :=
  omap (fun c => match c with
                 | CallAddFeature k' (Some s) (Some e) =>
                     if String.eqb k' k then Some (s, e) else None
                 | _ => None
                 end) cs.

(** The call made before parsing, for a text that starts with a hashbang. *)
Definition initial_calls (code : string) : list Call :=
  if JS.startsWith code "#!"
  then [CallAddFeature "hashbang" (Some 0) (Some 2)]
  else [].

(** A key of the catalogue other than the hashbang key. *)
Definition visitor_key (k : string) : bool :=
  bool_decide (in_catalogue k) && negb (String.eqb k "hashbang").

(** All keys mentioned by a table of names. *)
Definition table_keys (table : list (string * list string)) : list string :=
  flat_map snd table.

(** A text made of white space only (the empty text included). *)
Definition blank (s : string) : Prop :=
  Forall (fun c => JS.is_whitespace c = true) (list_ascii_of_string s).

(** The method names the [CallExpression] visitor reports under several
    receiver types at once, with the keys recorded for each. *)
Definition ambiguous_methods : list (string * list string) :=
  [("at", ["array-at"; "string-at"; "typedarray-at"]);
   ("includes", ["array-includes"; "string-includes"]);
   ("with", ["array-with"; "typedarray-with"])].

(** The call node of [arr.at(0)]. *)
Definition call_arr_at : Node :=
  mkNode "CallExpression" 0 9 [] []
    [("callee",
      mkNode "MemberExpression" 0 6 [] [("computed", false)]
        [("object", Identifier "arr" 0 3);
         ("property", Identifier "at" 4 6)]);
     ("arguments", mkNode "NumericLiteral" 7 8 [("raw", "0")] [] [])].

(** A text without line break. *)
Fixpoint one_line (s : string) : bool :=
  match s with
  | EmptyString => true
  | String c rest => negb (Ascii.eqb c JS.newline) && one_line rest
  end.

(** What the inner loop does for the feature named [name]. *)
Definition count_feature (rows : list (string * list string)) (name : string)
  (counts : gmap string Z) : gmap string Z :=
  fold_left (fun counts row =>
               if JS.array_includes (snd row) name
               then View.increment counts (fst row)
               else counts)
            rows counts.

(** A result with four features: Let Declaration (a syntax feature),
    SharedArrayBuffer (a data structure and a concurrency feature), Atomics
    (a concurrency feature) and For...of Loop (listed under no category). *)
Definition four_features : AnalysisResult :=
  build_result
    (omap (fun k => (fun fs => mkDF fs []) <$> featureMap !! k)
          ["let-declaration"; "sharedarraybuffer"; "atomics"; "for-of"]).

(** * Theorems *)

(** ** The snippet extractor *)

Lemma line_offset_0 lines : line_offset lines 0 = 0.
Proof. reflexivity. Qed.

Lemma line_offset_nonneg lines k : 0 <= line_offset lines k.
Proof.
  unfold line_offset. generalize (take k lines) as l.
  induction l as [|x l IH]; cbn [foldr]; [lia|]. unfold JS.len in *. lia.
Qed.

Lemma line_offset_app_S pre l rest :
  line_offset (pre ++ l :: rest) (S (length pre))
  = line_offset (pre ++ l :: rest) (length pre) + JS.len l + 1.
Proof.
  unfold line_offset.
  replace (S (length pre)) with (length (pre ++ [l])) by (rewrite length_app; simpl; lia).
  replace (pre ++ l :: rest) with ((pre ++ [l]) ++ rest) at 1
    by (rewrite <- app_assoc; reflexivity).
  rewrite take_app_length, take_app_length.
  induction pre as [|x pre IH]; simpl; [lia|]. rewrite IH. lia.
Qed.

Lemma line_offset_mono lines j k :
  (j <= k)%nat -> line_offset lines j <= line_offset lines k.
Proof.
  unfold line_offset. revert j k.
  induction lines as [|x lines IH]; intros j k Hjk.
  - rewrite !take_nil. simpl. lia.
  - destruct j as [|j]; simpl.
    + apply (line_offset_nonneg (x :: lines) k).
    + destruct k as [|k]; [lia|]. simpl.
      specialize (IH j k ltac:(lia)). lia.
Qed.

Lemma line_offset_all code :
  line_offset (JS.split_nl code) (length (JS.split_nl code)) = JS.len code + 1.
Proof.
  unfold line_offset. rewrite firstn_all.
  induction code as [|c code IH]; simpl; [reflexivity|].
  destruct (Ascii.eqb c JS.newline).
  - simpl. rewrite IH. unfold JS.len. simpl. lia.
  - destruct (JS.split_nl code) as [|l ls]; simpl in *.
    + unfold JS.len in *. simpl in *. lia.
    + unfold JS.len in *. simpl in *. lia.
Qed.

(** The loop invariant: on entry to iteration [i] the running offset is the
    offset of line [i + 1], no end line was found yet, and the start line is
    either still unset or already the first line exceeding [start]. *)
Lemma scan_lines_spec lines start end_ :
  0 <= start <= end_ ->
  end_ < line_offset lines (length lines) ->
  forall ls pre st,
    lines = pre ++ ls ->
    currentPos st = line_offset lines (length pre) ->
    sc_endLine st = 0 ->
    currentPos st <= end_ ->
    (sc_startLine st = 0 /\ currentPos st <= start
     \/ first_line_exceeding lines start (sc_startLine st)
        /\ sc_startCol st
           = start - line_offset lines (Z.to_nat (sc_startLine st - 1))) ->
    let st' := scan_lines ls (Z.of_nat (length pre)) start end_ st in
    first_line_exceeding lines start (sc_startLine st')
    /\ first_line_exceeding lines end_ (sc_endLine st')
    /\ sc_startCol st'
       = start - line_offset lines (Z.to_nat (sc_startLine st' - 1)).
Proof.
  intros Hse Htot ls.
  induction ls as [|l rest IH]; intros pre st Hlines Hpos Hend Hle Hstart.
  - rewrite app_nil_r in Hlines. subst pre. lia.
  - assert (Hlen : length lines = (length pre + S (length rest))%nat)
      by (rewrite Hlines, length_app; reflexivity).
    assert (Hnext : line_offset lines (S (length pre))
                    = currentPos st + (JS.len l + 1))
      by (rewrite Hlines at 1; rewrite line_offset_app_S, <- Hlines; lia).
    assert (Hbelow : forall off, currentPos st <= off ->
              forall j, 1 <= j < Z.of_nat (length pre) + 1 ->
                        line_offset lines (Z.to_nat j) <= off).
    { intros off Hoff j Hj.
      pose proof (line_offset_mono lines (Z.to_nat j) (length pre) ltac:(lia)).
      lia. }
    assert (Hfirst : forall off, currentPos st <= off ->
              off < currentPos st + (JS.len l + 1) ->
              first_line_exceeding lines off (Z.of_nat (length pre) + 1)).
    { intros off Hlo Hhi. split; [lia|]. split.
      - replace (Z.to_nat (Z.of_nat (length pre) + 1)) with (S (length pre)) by lia.
        lia.
      - apply Hbelow, Hlo. }
    cbn [scan_lines]. cbv zeta.
    set (st1 := if (currentPos st + (JS.len l + 1) >? start)
                   && (sc_startLine st =? 0) then _ else st).
    assert (H1 : currentPos st1 = currentPos st /\ sc_endLine st1 = 0
                 /\ (sc_startLine st1 = 0
                     /\ currentPos st + (JS.len l + 1) <= start
                     \/ first_line_exceeding lines start (sc_startLine st1)
                        /\ sc_startCol st1
                           = start - line_offset lines
                                       (Z.to_nat (sc_startLine st1 - 1)))).
    { subst st1.
      destruct (Z.gtb_spec (currentPos st + (JS.len l + 1)) start) as [Hgt|Hngt];
        destruct (Z.eqb_spec (sc_startLine st) 0) as [Hz|Hnz];
        cbn [andb currentPos sc_endLine sc_startLine sc_startCol];
        (split; [reflexivity|]); (split; [assumption|]).
      - right. destruct Hstart as [[_ Hcur]|[Hf _]];
          [|destruct Hf as [Hf _]; lia].
        split; [apply Hfirst; lia|].
        replace (Z.to_nat (Z.of_nat (length pre) + 1 - 1)) with (length pre) by lia.
        lia.
      - right. destruct Hstart as [[Hz _]|Hr]; [contradiction|exact Hr].
      - left. split; [assumption|lia].
      - right. destruct Hstart as [[Hz _]|Hr]; [contradiction|exact Hr]. }
    destruct H1 as (Hp1 & He1 & Hs1).
    rewrite Hp1, He1.
    destruct (Z.gtb_spec (currentPos st + (JS.len l + 1)) end_) as [Hgt|Hngt];
      cbn [andb Z.eqb].
    + cbn [sc_startLine sc_endLine sc_startCol].
      destruct Hs1 as [[_ Hbad]|[Hf Hc]]; [lia|].
      split; [exact Hf|]. split; [apply Hfirst; lia|exact Hc].
    + specialize (IH (pre ++ [l])
                     (mkScan (currentPos st + (JS.len l + 1)) (sc_startLine st1)
                             0 (sc_startCol st1))).
      replace (Z.of_nat (length (pre ++ [l]))) with (Z.of_nat (length pre) + 1)
        in IH by (rewrite length_app; simpl; lia).
      apply IH; cbn [currentPos sc_endLine sc_startLine sc_startCol].
      * rewrite <- app_assoc. exact Hlines.
      * replace (length (pre ++ [l])) with (S (length pre))
          by (rewrite length_app; simpl; lia).
        lia.
      * reflexivity.
      * lia.
      * exact Hs1.
Qed.



(** ** The accumulator *)

Lemma set_add_obj_fresh o os :
  (forall o', o' ∈ os -> (obj_ref o' < obj_ref o)%nat) ->
  set_add_obj o os = os ++ [o].
Proof.
  intros Hlt. unfold set_add_obj.
  destruct (existsb _ os) eqn:Hex; [|reflexivity].
  apply existsb_exists in Hex as (o' & Hin & Heq).
  apply Nat.eqb_eq in Heq. apply list_elem_of_In, Hlt in Hin. lia.
Qed.

Lemma set_add_obj_nonempty o os : exists o' os', set_add_obj o os = o' :: os'.
Proof.
  unfold set_add_obj. destruct (existsb _ os) eqn:Hex.
  - destruct os; [discriminate|eauto].
  - destruct os; simpl; eauto.
Qed.

(** What [addFeature] with a span does to the snippet map. *)
Lemma addFeature_snippets code k s e a :
  featureSnippets (addFeature code k (Some s) (Some e) a)
  = <[k := set_add_obj (mkObj (next_ref a) (extractSnippet code s e))
                        (snippets_of a k)]> (featureSnippets a).
Proof.
  unfold addFeature, snippets_of. cbn.
  destruct (featureSnippets a !! k) as [os|] eqn:Hk.
  - rewrite Hk. reflexivity.
  - rewrite lookup_insert_eq. cbn. rewrite insert_insert_eq. reflexivity.
Qed.

Lemma addFeature_next_ref code k s e a :
  next_ref (addFeature code k (Some s) (Some e) a) = S (next_ref a).
Proof. reflexivity. Qed.

Lemma addFeature_fresh code k s e a :
  fresh a -> fresh (addFeature code k (Some s) (Some e) a).
Proof.
  intros Hf k' os o Hk' Ho.
  rewrite addFeature_snippets in Hk'. rewrite addFeature_next_ref.
  destruct (decide (k = k')) as [->|Hne].
  - rewrite lookup_insert_eq in Hk'. injection Hk' as <-.
    rewrite set_add_obj_fresh in Ho.
    + apply elem_of_app in Ho as [Ho|Ho].
      * unfold snippets_of in Ho.
        destruct (featureSnippets a !! k') eqn:Hk; cbn in Ho.
        -- specialize (Hf _ _ _ Hk Ho). lia.
        -- inversion Ho.
      * apply list_elem_of_singleton in Ho. subst o. cbn. lia.
    + intros o' Ho'. cbn. unfold snippets_of in Ho'.
      destruct (featureSnippets a !! k') eqn:Hk; cbn in Ho'.
      * exact (Hf _ _ _ Hk Ho').
      * inversion Ho'.
  - rewrite lookup_insert_ne in Hk' by assumption.
    specialize (Hf _ _ _ Hk' Ho). lia.
Qed.

(** Submitting a span appends one object, whatever is stored already:
    the object is new, so the set never finds it among its members. *)
Lemma addFeature_appends code k s e a :
  fresh a ->
  snippets_of (addFeature code k (Some s) (Some e) a) k
  = snippets_of a k ++ [mkObj (next_ref a) (extractSnippet code s e)].
Proof.
  intros Hf. unfold snippets_of at 1.
  rewrite addFeature_snippets, lookup_insert_eq. cbn.
  apply set_add_obj_fresh. intros o' Ho'. cbn. unfold snippets_of in Ho'.
  destruct (featureSnippets a !! k) eqn:Hk; cbn in Ho'.
  - exact (Hf _ _ _ Hk Ho').
  - inversion Ho'.
Qed.

(** Submitting the same span twice for the same key stores two objects
    with the same field values. *)
Lemma addFeature_twice code k s e a :
  fresh a ->
  obj_val <$> snippets_of (addFeature code k (Some s) (Some e)
                             (addFeature code k (Some s) (Some e) a)) k
  = (obj_val <$> snippets_of a k)
    ++ [extractSnippet code s e; extractSnippet code s e].
Proof.
  intros Hf.
  rewrite addFeature_appends by (apply addFeature_fresh, Hf).
  rewrite addFeature_appends by exact Hf.
  rewrite !fmap_app, <- app_assoc. reflexivity.
Qed.

(** ** The traversal as a sequence of calls *)

Lemma run_calls_app code cs1 cs2 a :
  run_calls code (cs1 ++ cs2) a = run_calls code cs2 (run_calls code cs1 a).
Proof. unfold run_calls. apply fold_left_app. Qed.

Lemma traverse_node_calls code n :
  forall parent_ty scope a,
    traverse_node code parent_ty scope n a
    = run_calls code (node_calls parent_ty scope n) a.
Proof.
  induction n as [ty s e ss fl cs IH] using Node_nested_ind.
  intros parent_ty scope a. cbn [traverse_node node_calls ntype nchildren].
  set (scope' := if Babel.isScope ty parent_ty then ty :: scope else scope).
  rewrite run_calls_app.
  generalize (run_calls code (visit (mkNode ty s e ss fl cs) scope') a) as a1.
  induction IH as [|[k c] rest Hc _ IHrest]; intros a1; [reflexivity|].
  rewrite run_calls_app, <- IHrest. cbn [snd] in Hc. rewrite Hc. reflexivity.
Qed.

Lemma traverse_calls code ast a :
  traverse code ast a = run_calls code (tree_calls ast) a.
Proof.
  unfold traverse, tree_calls. revert a.
  induction (nchildren ast) as [|kc rest IH]; intros a; [reflexivity|].
  cbn [fold_left flat_map]. rewrite run_calls_app, IH, traverse_node_calls.
  reflexivity.
Qed.

(** ** Scenarios *)

(** C1 (the code departs from it): on the input [arr.at(0)] the
    [CallExpression] visitor submits the span of the call twice under the
    key [array-at]; the returned feature lists that evidence twice, the two
    entries agreeing on every field. *)
Theorem arr_at_evidence_stored_twice parse :
  parse src_arr_at = Parsed ast_arr_at ->
  exists r df,
    analyzeCode parse src_arr_at = Resolved r
    /\ features r !! 0%nat = Some df
    /\ featureMap !! "array-at" = Some (base df)
    /\ codeSnippets df
       = [extractSnippet src_arr_at 0 9; extractSnippet src_arr_at 0 9].
Proof.
  intros H.
  eexists _, _. split; [unfold analyzeCode, detect; rewrite H; reflexivity|].
  split; [vm_compute; reflexivity|]. split; vm_compute; reflexivity.
Qed.

Lemma arr_at_evidence_stored_twice_witness :
  exists r df,
    analyzeCode scenario_parse src_arr_at = Resolved r
    /\ features r !! 0%nat = Some df
    /\ featureMap !! "array-at" = Some (base df)
    /\ codeSnippets df
       = [extractSnippet src_arr_at 0 9; extractSnippet src_arr_at 0 9].
Proof. apply (arr_at_evidence_stored_twice scenario_parse). reflexivity. Defined.

(** C2 (the code departs from it): on [async function f() { await g(); }]
    the analysis records the async/await key and, although the await sits
    in the body of [f], the top-level-await key as well.  The scope of the
    await is the scope of [f]; the visitor starts its walk at the parent of
    that scope, which is the program. *)
Theorem async_function_reported_top_level parse :
  parse src_async_function = Parsed ast_async_function ->
  exists a r,
    detect parse src_async_function = inr a
    /\ detectedFeatures a = ["async-await"; "top-level-await"]
    /\ analyzeCode parse src_async_function = Resolved r
    /\ (fun f => feature (base f)) <$> features r
       = ["Async/Await"; "Top-level Await"].
Proof.
  intros H. eexists _, _.
  split; [unfold detect; rewrite H; reflexivity|].
  split; [vm_compute; reflexivity|].
  split; [unfold analyzeCode, detect; rewrite H; reflexivity|].
  vm_compute. reflexivity.
Qed.

Lemma async_function_reported_top_level_witness :
  exists a r,
    detect scenario_parse src_async_function = inr a
    /\ detectedFeatures a = ["async-await"; "top-level-await"]
    /\ analyzeCode scenario_parse src_async_function = Resolved r
    /\ (fun f => feature (base f)) <$> features r
       = ["Async/Await"; "Top-level Await"].
Proof.
  apply (async_function_reported_top_level scenario_parse). reflexivity.
Defined.

(** The walk of the [AwaitExpression] visitor answers "top level" exactly
    when no function boundary occurs among the given scopes before the
    first program scope. *)
Lemma isTopLevel_from_spec parents :
  isTopLevel_from parents = true
  <-> forall i block,
        parents !! i = Some block ->
        JS.array_includes function_boundaries block = true ->
        exists j, (j < i)%nat /\ parents !! j = Some "Program".
Proof.
  induction parents as [|b outer IH]; cbn [isTopLevel_from].
  - split; [intros _ i block Hi; destruct i; discriminate|reflexivity].
  - destruct (String.eqb_spec b "Program") as [->|Hb].
    + split; [|reflexivity]. intros _ [|i] block Hi Hfn.
      * injection Hi as <-. discriminate.
      * exists 0%nat. split; [lia|reflexivity].
    + destruct (JS.array_includes function_boundaries b) eqn:Hfn.
      * split; [discriminate|]. intros Hall.
        destruct (Hall 0%nat b eq_refl Hfn) as (j & Hj & _). lia.
      * rewrite IH. split.
        -- intros Hall [|i] block Hi Hblock.
           ++ injection Hi as <-. congruence.
           ++ destruct (Hall i block Hi Hblock) as (j & Hj & Hp).
              exists (S j). split; [lia|exact Hp].
        -- intros Hall i block Hi Hblock.
           destruct (Hall (S i) block Hi Hblock) as ([|j] & Hj & Hp).
           ++ injection Hp as ->. contradiction.
           ++ exists j. split; [lia|exact Hp].
Qed.

(** The walk starts at [path.scope.parent]: an await whose own scope is a
    function lying directly in the program is reported as top level. *)
Lemma await_directly_in_function n fn :
  visit_AwaitExpression n [fn; "Program"]
  = [add "async-await" n; add "top-level-await" n].
Proof. reflexivity. Qed.

(** C3 (the code departs from it): [await g();] at the top level of the
    document yields the async/await key and the top-level-await key, as
    claimed; but so does an await enclosed in an arrow function, where the
    claim excludes the top-level-await key. *)
Theorem top_level_await_also_inside_arrow parse :
  parse src_top_level_await = Parsed ast_top_level_await ->
  parse src_async_arrow = Parsed ast_async_arrow ->
  exists a1 a2,
    detect parse src_top_level_await = inr a1
    /\ detectedFeatures a1 = ["async-await"; "top-level-await"]
    /\ detect parse src_async_arrow = inr a2
    /\ detectedFeatures a2
       = ["const-declaration"; "arrow-function"; "async-await";
          "top-level-await"].
Proof.
  intros H1 H2. eexists _, _.
  split; [unfold detect; rewrite H1; reflexivity|].
  split; [vm_compute; reflexivity|].
  split; [unfold detect; rewrite H2; reflexivity|].
  vm_compute. reflexivity.
Qed.

Lemma top_level_await_also_inside_arrow_witness :
  exists a1 a2,
    detect scenario_parse src_top_level_await = inr a1
    /\ detectedFeatures a1 = ["async-await"; "top-level-await"]
    /\ detect scenario_parse src_async_arrow = inr a2
    /\ detectedFeatures a2
       = ["const-declaration"; "arrow-function"; "async-await";
          "top-level-await"].
Proof.
  apply (top_level_await_also_inside_arrow scenario_parse); reflexivity.
Defined.

(** ** Which rules attach evidence *)

Lemma elem_of_when (c : Call) b body : c ∈ when b body -> c ∈ body.
Proof. destruct b; [trivial|]. intros H; inversion H. Qed.

Lemma elem_of_by_name c table name n :
  c ∈ by_name table name n -> exists k, c = add k n.
Proof.
  unfold by_name. intros H.
  apply list_elem_of_In, in_flat_map in H as (row & _ & H).
  apply list_elem_of_In, elem_of_when, list_elem_of_In, in_map_iff in H
    as (k & <- & _).
  eauto.
Qed.

Ltac split_calls :=
  repeat match goal with
    | H : _ ∈ _ ++ _ |- _ => apply elem_of_app in H as [H|H]
    | H : _ ∈ when _ _ |- _ => apply elem_of_when in H
    | H : _ ∈ by_name _ _ _ |- _ =>
        apply elem_of_by_name in H as [? ->]; left; eexists; reflexivity
    | H : _ ∈ [] |- _ => inversion H
    | H : _ ∈ _ :: _ |- _ => apply elem_of_cons in H as [->|H]
    end.

Ltac close_call_ok :=
  first
    [ left; eexists; reflexivity
    | right; eexists; split; [reflexivity|];
      apply list_elem_of_In; simpl; tauto ].

Lemma visitors_ok :
  Forall (fun tv => forall n scope c, c ∈ snd tv n scope -> call_ok n c)
         visitors.
Proof.
  unfold visitors.
  repeat (apply Stdlib.Lists.List.Forall_cons;
          [cbn [snd]; intros n scope c H;
           unfold visit_ArrowFunctionExpression, visit_VariableDeclaration,
             visit_AwaitExpression, visit_function, visit_NewExpression,
             visit_ClassProperty, visit_ForOfStatement,
             visit_LogicalExpression, visit_AssignmentExpression,
             visit_ObjectProperty, visit_ImportDeclaration,
             visit_NumericLiteral, visit_CallExpression,
             visit_MemberExpression, visit_RegExpLiteral,
             visit_function_params, call_statics in H;
           cbv zeta in H; split_calls; close_call_ok|]).
  apply Stdlib.Lists.List.Forall_nil.
Qed.

Lemma assoc_In {A} k (l : list (string * A)) v :
  assoc k l = Some v -> In (k, v) l.
Proof.
  unfold assoc. destruct (List.find _ l) as [[k' v']|] eqn:Hf; [|discriminate].
  cbn. intros [= <-]. apply find_some in Hf as [Hin Heq].
  cbn in Heq. apply String.eqb_eq in Heq. subst k'. exact Hin.
Qed.

Lemma visit_ok n scope c : c ∈ visit n scope -> call_ok n c.
Proof.
  unfold visit. destruct (assoc (ntype n) visitors) as [v|] eqn:Hv.
  - apply assoc_In in Hv.
    pose proof (proj1 (Forall_forall _ _) visitors_ok _
                  (proj2 (list_elem_of_In _ _) Hv)) as Hok.
    apply Hok.
  - intros H; inversion H.
Qed.

Lemma call_ok_spanned n c : call_ok n c -> call_spanned c.
Proof. intros [[k ->]|(k & -> & Hk)]; [exact I|exact Hk]. Qed.

Lemma node_calls_spanned n :
  forall parent_ty scope, Forall call_spanned (node_calls parent_ty scope n).
Proof.
  induction n as [ty s e ss fl cs IH] using Node_nested_ind.
  intros parent_ty scope. cbn [node_calls ntype nchildren].
  set (scope' := if Babel.isScope ty parent_ty then ty :: scope else scope).
  apply Forall_app. split.
  - apply Forall_forall. intros c Hc. eapply call_ok_spanned, visit_ok, Hc.
  - clearbody scope'. induction IH as [|[k c] rest Hc _ IHrest]; [constructor|].
    apply Forall_app. split; [apply Hc|exact IHrest].
Qed.

Lemma tree_calls_spanned ast : Forall call_spanned (tree_calls ast).
Proof.
  unfold tree_calls. induction (nchildren ast) as [|kc rest IH]; [constructor|].
  cbn [flat_map]. apply Forall_app. split; [apply node_calls_spanned|exact IH].
Qed.

Lemma elem_of_set_add_string k' k l :
  k' ∈ set_add_string k l <-> k' = k \/ k' ∈ l.
Proof.
  unfold set_add_string. destruct (existsb _ l) eqn:Hex.
  - apply existsb_exists in Hex as (x & Hin & Heq).
    apply String.eqb_eq in Heq. subst x. apply list_elem_of_In in Hin.
    split; [auto|]. intros [->|H]; assumption.
  - rewrite elem_of_app, list_elem_of_singleton. tauto.
Qed.

Lemma addFeature_detected code k s e a :
  detectedFeatures (addFeature code k s e a)
  = set_add_string k (detectedFeatures a).
Proof. unfold addFeature. destruct s, e; reflexivity. Qed.

Lemma has_evidence_addFeature code k s e a k' :
  k' = k \/ has_evidence a k' ->
  has_evidence (addFeature code k (Some s) (Some e) a) k'.
Proof.
  unfold has_evidence. rewrite addFeature_snippets. intros H.
  destruct (decide (k = k')) as [->|Hne].
  - rewrite lookup_insert_eq.
    destruct (set_add_obj_nonempty
                (mkObj (next_ref a) (extractSnippet code s e))
                (snippets_of a k')) as (o & os & ->).
    eauto.
  - rewrite lookup_insert_ne by assumption.
    destruct H as [->|H]; [contradiction|exact H].
Qed.

Lemma run_call_evidenced code c a :
  call_spanned c -> evidenced a -> evidenced (run_call code c a).
Proof.
  intros Hc Ha k Hk. destruct c as [key [s|] [e|]|key]; cbn in Hc; try contradiction.
  - cbn [run_call] in *. rewrite addFeature_detected in Hk.
    apply elem_of_set_add_string in Hk as [->|Hk].
    + right. apply has_evidence_addFeature. auto.
    + destruct (Ha k Hk) as [Hb|He]; [left; exact Hb|].
      right. apply has_evidence_addFeature. auto.
  - cbn [run_call detectedFeatures_add detectedFeatures] in Hk.
    apply elem_of_set_add_string in Hk as [->|Hk]; [left; exact Hc|].
    exact (Ha k Hk).
Qed.

Lemma run_calls_evidenced code cs :
  Forall call_spanned cs ->
  forall a, evidenced a -> evidenced (run_calls code cs a).
Proof.
  unfold run_calls. induction 1 as [|c cs Hc _ IH]; intros a Ha; [exact Ha|].
  cbn [fold_left]. apply IH, run_call_evidenced; assumption.
Qed.

Lemma evidenced_empty : evidenced empty_acc.
Proof. intros k Hk. inversion Hk. Qed.

Lemma detect_evidenced parse code a :
  detect parse code = inr a -> evidenced a.
Proof.
  unfold detect. destruct (parse code) as [ast|err]; [|discriminate].
  intros [= <-]. rewrite traverse_calls.
  apply run_calls_evidenced; [apply tree_calls_spanned|].
  destruct (JS.startsWith code "#!"); [|apply evidenced_empty].
  exact (run_call_evidenced code (CallAddFeature "hashbang" (Some 0) (Some 2))
           empty_acc I evidenced_empty).
Qed.

(** How far the rule of the evidence holds: a visitor either submits its key
    together with the span of the matched node through [addFeature], or
    records one of the keys method-definition, import-statement,
    export-statement, dynamic-import, numeric-separators and bigint with no
    span; every key recorded by an analysis other than those six has at
    least one evidence attached. *)
Lemma evidence_except_bare_keys parse code a :
  detect parse code = inr a ->
  (forall n scope c, c ∈ visit n scope -> call_ok n c)
  /\ (forall k, k ∈ detectedFeatures a -> k ∉ bare_keys -> has_evidence a k).
Proof.
  intros Hd. split; [exact visit_ok|].
  intros k Hk Hnb. destruct (detect_evidenced _ _ _ Hd k Hk); [contradiction|assumption].
Qed.

(** C4: the rule that every visitor attaches evidence to the key it records
    is broken on the input [1n;]: the [BigIntLiteral] visitor records the
    key bigint with a bare [detectedFeatures.add], where the other visitors
    call [addFeature] with the span of the matched node; the extractor is
    not called, no evidence is stored for the key, and the feature BigInt
    reaches the result with an empty evidence list. *)
Theorem bigint_recorded_without_evidence :
  visit (mkNode "BigIntLiteral" 0 2 [("raw", "1n")] [] []) ["Program"]
  = [CallDetectedAdd "bigint"]
  /\ exists a r df,
       detect scenario_parse src_bigint = inr a
       /\ "bigint" ∈ detectedFeatures a
       /\ ~ has_evidence a "bigint"
       /\ analyzeCode scenario_parse src_bigint = Resolved r
       /\ features r = [df]
       /\ featureMap !! "bigint" = Some (base df)
       /\ codeSnippets df = [].
Proof.
  split; [reflexivity|]. eexists _, _, _.
  split; [reflexivity|]. split; [vm_compute; apply list_elem_of_here|].
  split; [intros (o & os & H); vm_compute in H; discriminate|].
  split; [reflexivity|]. split; [vm_compute; reflexivity|].
  split; vm_compute; reflexivity.
Qed.

(** C10: when the parser yields a tree, the text does not start with the
    hashbang and no visitor makes a call during the traversal (as for the
    empty text), the analysis succeeds with no feature, all three summary
    fields at their empty values and [No] in all five version slots. *)
Theorem no_rule_fires_empty_result parse code ast :
  parse code = Parsed ast ->
  JS.startsWith code "#!" = false ->
  tree_calls ast = [] ->
  analyzeCode parse code
  = Resolved {| features := [];
                summary := {| totalFeatures := 0;
                              modernFeatures := 0;
                              legacySupport := true |};
                minimumVersions := mkSupport "No" "No" "No" "No" "No" |}.
Proof.
  intros Hp Hh Hc. unfold analyzeCode, detect.
  rewrite Hp, Hh, traverse_calls, Hc. reflexivity.
Qed.

Lemma no_rule_fires_empty_result_witness :
  analyzeCode scenario_parse ""
  = Resolved {| features := [];
                summary := {| totalFeatures := 0;
                              modernFeatures := 0;
                              legacySupport := true |};
                minimumVersions := mkSupport "No" "No" "No" "No" "No" |}.
Proof.
  apply (no_rule_fires_empty_result scenario_parse "" ast_empty); reflexivity.
Defined.

(** ** The result *)

Lemma omap_filter_is_Some {A B} (f : A -> option B) (l : list A) :
  omap f l = omap f (filter (fun x => is_Some (f x)) l).
Proof.
  induction l as [|x l IH]; [reflexivity|].
  rewrite filter_cons. destruct (decide (is_Some (f x))) as [[y Hy]|Hn].
  - simpl. rewrite Hy. f_equal. exact IH.
  - simpl. destruct (f x) as [y|] eqn:Hx; [destruct Hn; eauto|exact IH].
Qed.

Lemma analyzeCode_resolved parse code r :
  analyzeCode parse code = Resolved r ->
  exists a, detect parse code = inr a /\ r = build_result (build_features a).
Proof.
  unfold analyzeCode. destruct (detect parse code) as [err|a]; [discriminate|].
  intros [= <-]. eauto.
Qed.

(** C6: every feature of a successful analysis is the catalogue entry of a
    key recorded during the traversal; recorded keys without an entry leave
    no trace in the list, which is the one built from the recorded keys that
    have an entry. *)
Theorem features_come_from_catalogue parse code r :
  analyzeCode parse code = Resolved r ->
  exists a,
    detect parse code = inr a
    /\ (forall df, df ∈ features r ->
          exists key, key ∈ detectedFeatures a
                      /\ featureMap !! key = Some (base df))
    /\ features r
       = build_features (mkAcc (filter in_catalogue (detectedFeatures a))
                               (featureSnippets a) (next_ref a)).
Proof.
  intros H. apply analyzeCode_resolved in H as (a & Hd & ->).
  exists a. split; [exact Hd|]. cbn [features build_result]. split.
  - intros df Hdf. unfold build_features in Hdf.
    apply list_elem_of_omap in Hdf as (key & Hkey & Hf).
    exists key. split; [exact Hkey|].
    destruct (featureMap !! key) as [fs|]; [|discriminate].
    injection Hf as <-. reflexivity.
  - unfold build_features. cbn [detectedFeatures featureSnippets].
    rewrite omap_filter_is_Some. f_equal.
    apply list_filter_iff. intros key. unfold in_catalogue.
    destruct (featureMap !! key); split; intros [? ?]; eauto; discriminate.
Qed.

Lemma features_come_from_catalogue_witness :
  exists r,
    analyzeCode scenario_parse src_arr_at = Resolved r
    /\ exists a,
         detect scenario_parse src_arr_at = inr a
         /\ (forall df, df ∈ features r ->
               exists key, key ∈ detectedFeatures a
                           /\ featureMap !! key = Some (base df))
         /\ features r
            = build_features (mkAcc (filter in_catalogue (detectedFeatures a))
                                    (featureSnippets a) (next_ref a)).
Proof.
  eexists. split; [reflexivity|].
  apply (features_come_from_catalogue scenario_parse src_arr_at). reflexivity.
Defined.

(** C7: when the parser throws instead of producing a tree, the analysis
    rejects with the parse-failure error that wraps the parser's message,
    and resolves with no result. *)
Theorem parse_failure_rejects parse code message :
  parse code = ParseThrows (ThrownError message) ->
  analyzeCode parse code
  = Rejected ("Failed to parse JavaScript code: " +:+ message)
  /\ forall r, analyzeCode parse code <> Resolved r.
Proof.
  intros H. unfold analyzeCode, detect. rewrite H. split; [reflexivity|].
  intros r. discriminate.
Qed.

Lemma parse_failure_rejects_witness :
  analyzeCode scenario_parse "{"
  = Rejected ("Failed to parse JavaScript code: " +:+ "Unexpected token (1:0)")
  /\ forall r, analyzeCode scenario_parse "{" <> Resolved r.
Proof. apply parse_failure_rejects. reflexivity. Defined.

(** The parse failure is the only way for an analysis to reject. *)
Lemma rejected_only_on_parse_failure parse code message :
  analyzeCode parse code = Rejected message ->
  exists e, parse code = ParseThrows e.
Proof.
  unfold analyzeCode, detect. destruct (parse code) as [ast|e]; [discriminate|].
  eauto.
Qed.

Lemma includes_marker s : JS.includes s "*" = true <-> has_marker s.
Proof.
  unfold has_marker. induction s as [|c s IH].
  - cbn. split; [discriminate|]. intros H; inversion H.
  - cbn [JS.includes String.prefix list_ascii_of_string].
    rewrite elem_of_cons, <- IH.
    destruct (ascii_dec "*" c) as [Heq|Hne].
    + split; [auto|]. intros _. destruct s; reflexivity.
    + cbn [orb]. split; [auto|]. intros [Heq|H]; [congruence|exact H].
Qed.

Lemma is_modern_spec f : is_modern f = true <-> modern_only f.
Proof.
  unfold is_modern, modern_only.
  rewrite orb_true_iff, String.eqb_eq, includes_marker. reflexivity.
Qed.

Lemma filter_bool_decide {A} (f : A -> bool) (P : A -> Prop)
  `{forall x, Decision (P x)} (l : list A) :
  (forall x, f x = true <-> P x) -> List.filter f l = filter P l.
Proof.
  intros Hfp. induction l as [|x l IH]; [reflexivity|].
  rewrite filter_cons. cbn [List.filter]. destruct (f x) eqn:Hx.
  - rewrite decide_True by (apply Hfp, Hx). f_equal. exact IH.
  - rewrite decide_False by (rewrite <- Hfp; congruence). exact IH.
Qed.

(** C8: in a successful analysis the total is the number of detected
    features, the modern-only count is the number of those whose
    legacy-engine slot is [No] or carries the partial-support marker, and
    the legacy flag holds exactly when no detected feature has [No] in that
    slot (a slot with the marker, not being [No], does not clear it). *)
Theorem summary_counts parse code r :
  analyzeCode parse code = Resolved r ->
  totalFeatures (summary r) = Z.of_nat (length (features r))
  /\ modernFeatures (summary r)
     = Z.of_nat (length (filter modern_only (features r)))
  /\ (legacySupport (summary r) = true
      <-> forall df : DetectedFeature, df ∈ features r -> ie (support df) <> "No").
Proof.
  intros H. apply analyzeCode_resolved in H as (a & _ & ->).
  cbn [summary features build_result totalFeatures modernFeatures legacySupport].
  split; [reflexivity|]. split.
  - rewrite (filter_bool_decide is_modern modern_only) by apply is_modern_spec.
    reflexivity.
  - rewrite forallb_forall. unfold is_legacy_compatible. split.
    + intros Hall df Hdf Hno. apply list_elem_of_In, Hall in Hdf.
      rewrite Hno in Hdf. discriminate.
    + intros Hall df Hdf. apply negb_true_iff, String.eqb_neq, Hall, list_elem_of_In, Hdf.
Qed.

Lemma summary_counts_witness :
  exists r,
    analyzeCode scenario_parse src_async_arrow = Resolved r
    /\ totalFeatures (summary r) = Z.of_nat (length (features r))
    /\ modernFeatures (summary r)
       = Z.of_nat (length (filter modern_only (features r)))
    /\ (legacySupport (summary r) = true
        <-> forall df : DetectedFeature, df ∈ features r -> ie (support df) <> "No").
Proof.
  eexists. split; [reflexivity|].
  apply (summary_counts scenario_parse src_async_arrow). reflexivity.
Defined.

(** ** Version numbers *)

Lemma take_digits_all_digits s : all_digits (fst (JS.take_digits s)) = true.
Proof.
  induction s as [|c s IH]; [reflexivity|]. cbn [JS.take_digits].
  destruct (JS.is_digit c) eqn:Hc; [|reflexivity].
  destruct (JS.take_digits s) as [ds tl]. cbn [fst all_digits] in *. rewrite Hc. exact IH.
Qed.

Lemma append_nil_l s : "" +:+ s = s.
Proof. reflexivity. Qed.

Lemma append_cons c s t : String c s +:+ t = String c (s +:+ t).
Proof. reflexivity. Qed.

Lemma append_assoc_r s t u : (s +:+ t) +:+ u = s +:+ (t +:+ u).
Proof.
  induction s as [|c s IH]; [reflexivity|].
  rewrite !append_cons, IH. reflexivity.
Qed.

Lemma take_digits_app ds rest :
  all_digits ds = true ->
  match rest with String c _ => JS.is_digit c = false | EmptyString => True end ->
  JS.take_digits (ds +:+ rest) = (ds, rest).
Proof.
  intros Hds Hrest. induction ds as [|c ds IH].
  - rewrite append_nil_l. destruct rest as [|c r]; [reflexivity|].
    cbn [JS.take_digits].
    rewrite Hrest. reflexivity.
  - cbn [all_digits] in Hds. apply andb_true_iff in Hds as [Hc Hds].
    rewrite append_cons. cbn [JS.take_digits].
    rewrite Hc, (IH Hds). reflexivity.
Qed.

Lemma drop_leading_zeros_all_digits s :
  all_digits s = true -> all_digits (JS.drop_leading_zeros s) = true.
Proof.
  induction s as [|c s IH]; [reflexivity|]. intros H. cbn [JS.drop_leading_zeros].
  destruct (Ascii.eqb c "0"); [|exact H].
  cbn [all_digits] in H. apply andb_true_iff in H as [_ H]. exact (IH H).
Qed.

Lemma drop_leading_zeros_idem s :
  JS.drop_leading_zeros (JS.drop_leading_zeros s) = JS.drop_leading_zeros s.
Proof.
  induction s as [|c s IH]; [reflexivity|]. cbn [JS.drop_leading_zeros].
  destruct (Ascii.eqb c "0") eqn:Hc; [exact IH|].
  cbn [JS.drop_leading_zeros]. rewrite Hc. reflexivity.
Qed.

Lemma drop_trailing_zeros_all_digits s :
  all_digits s = true -> all_digits (JS.drop_trailing_zeros s) = true.
Proof.
  induction s as [|c s IH]; [reflexivity|]. intros H.
  cbn [all_digits] in H. apply andb_true_iff in H as [Hc H]. cbn [JS.drop_trailing_zeros].
  destruct (Ascii.eqb c "0" && String.eqb (JS.drop_trailing_zeros s) "");
    [reflexivity|].
  cbn [all_digits]. rewrite Hc. exact (IH H).
Qed.

Lemma drop_trailing_zeros_idem s :
  JS.drop_trailing_zeros (JS.drop_trailing_zeros s) = JS.drop_trailing_zeros s.
Proof.
  induction s as [|c s IH]; [reflexivity|]. cbn [JS.drop_trailing_zeros].
  destruct (Ascii.eqb c "0" && String.eqb (JS.drop_trailing_zeros s) "") eqn:Hc;
    [reflexivity|].
  cbn [JS.drop_trailing_zeros]. rewrite IH, Hc. reflexivity.
Qed.

Lemma parseFloat_cases s :
  JS.parseFloat s = JS.NaN
  \/ exists d, JS.parseFloat s = JS.Finite d /\ canonical d.
Proof.
  unfold JS.parseFloat.
  pose proof (take_digits_all_digits s) as Hip.
  destruct (JS.take_digits s) as [ip rest]. cbn [fst] in Hip.
  set (fp := match rest with
             | String c tl => if JS.is_dot c then fst (JS.take_digits tl) else ""
             | EmptyString => ""
             end).
  assert (Hfp : all_digits fp = true).
  { subst fp. destruct rest as [|c tl]; [reflexivity|].
    destruct (JS.is_dot c); [apply take_digits_all_digits|reflexivity]. }
  destruct (String.eqb ip "" && String.eqb fp ""); [left; reflexivity|].
  right. eexists. split; [reflexivity|].
  repeat split; cbn [JS.int_part JS.frac_part].
  - apply drop_leading_zeros_all_digits, Hip.
  - apply drop_trailing_zeros_all_digits, Hfp.
  - apply drop_leading_zeros_idem.
  - apply drop_trailing_zeros_idem.
Qed.

Lemma keep_digits_dots_id s rest :
  all_digits s = true ->
  JS.keep_digits_dots (s +:+ rest) = s +:+ JS.keep_digits_dots rest.
Proof.
  induction s as [|c s IH]; [reflexivity|]. intros H.
  cbn [all_digits] in H. apply andb_true_iff in H as [Hc H].
  rewrite append_cons. cbn [JS.keep_digits_dots].
  rewrite Hc, (IH H). reflexivity.
Qed.

Lemma append_empty_r s : s +:+ "" = s.
Proof.
  induction s as [|c s IH]; [reflexivity|].
  rewrite append_cons, IH. reflexivity.
Qed.

Lemma drop_leading_zeros_nonempty s : JS.drop_leading_zeros s <> "".
Proof.
  induction s as [|c s IH]; [discriminate|]. cbn [JS.drop_leading_zeros].
  destruct (Ascii.eqb c "0"); [exact IH|discriminate].
Qed.

(** Printing a canonical numeral, appending [+] and reading the numeric
    prefix gives the numeral back. *)
Lemma numeric_prefix_toString d :
  canonical d ->
  numeric_prefix (JS.toString (JS.Finite d) +:+ "+") = JS.Finite d.
Proof.
  destruct d as [ip fp]. intros (Hip & Hfp & Hlz & Htz).
  cbn [JS.int_part JS.frac_part] in *.
  assert (Hne : ip <> "") by (rewrite <- Hlz; apply drop_leading_zeros_nonempty).
  unfold numeric_prefix, JS.toString. cbn [JS.frac_part JS.int_part].
  assert (Hplus : JS.keep_digits_dots "+" = "") by reflexivity.
  destruct (String.eqb_spec fp "") as [->|Hfne].
  - rewrite keep_digits_dots_id, Hplus, append_empty_r by exact Hip.
    unfold JS.parseFloat.
    assert (Htd : JS.take_digits ip = (ip, ""))
      by (rewrite <- (append_empty_r ip) at 1;
          apply take_digits_app; [exact Hip|exact I]).
    rewrite Htd.
    destruct (String.eqb_spec ip "") as [->|_]; [contradiction|].
    cbn [andb]. rewrite Hlz. reflexivity.
  - rewrite append_assoc_r.
    rewrite keep_digits_dots_id by exact Hip.
    rewrite !append_cons, append_nil_l.
    assert (Hdot : forall t, JS.keep_digits_dots (String "." t)
                             = String "." (JS.keep_digits_dots t))
      by reflexivity.
    rewrite Hdot, keep_digits_dots_id, Hplus, append_empty_r by exact Hfp.
    unfold JS.parseFloat.
    rewrite take_digits_app by (exact Hip || reflexivity).
    change (JS.is_dot ".") with true. cbv iota.
    assert (Htd : JS.take_digits fp = (fp, ""))
      by (rewrite <- (append_empty_r fp) at 1;
          apply take_digits_app; [exact Hfp|exact I]).
    rewrite Htd. cbn [fst].
    destruct (String.eqb_spec ip "") as [->|_]; [contradiction|].
    cbn [andb]. rewrite Hlz, Htz. reflexivity.
Qed.

Lemma fold_max2_finite l :
  forall x, exists m,
    fold_left JS.max2 (JS.Finite <$> l) (JS.Finite x) = JS.Finite m
    /\ m ∈ x :: l
    /\ forall v, v ∈ x :: l -> (JS.value v <= JS.value m)%Q.
Proof.
  induction l as [|y l IH]; intros x.
  - exists x. split; [reflexivity|]. split; [apply list_elem_of_here|].
    intros v Hv. apply list_elem_of_singleton in Hv. subst v. apply Qle_refl.
  - cbn [fmap list_fmap fold_left JS.max2].
    destruct (Qle_bool (JS.value x) (JS.value y)) eqn:Hxy.
    + apply Qle_bool_iff in Hxy.
      destruct (IH y) as (m & Hm & Hin & Hmax). exists m.
      split; [exact Hm|]. split; [apply list_elem_of_further, Hin|].
      intros v Hv. apply elem_of_cons in Hv as [->|Hv]; [|exact (Hmax v Hv)].
      apply Qle_trans with (JS.value y); [exact Hxy|].
      apply Hmax, list_elem_of_here.
    + assert (Hyx : (JS.value y <= JS.value x)%Q).
      { apply Qlt_le_weak, Qnot_le_lt. intros Hle.
        apply Qle_bool_iff in Hle. congruence. }
      destruct (IH x) as (m & Hm & Hin & Hmax). exists m.
      split; [exact Hm|]. split.
      * apply elem_of_cons in Hin as [->|Hin];
          [apply list_elem_of_here|do 2 apply list_elem_of_further; exact Hin].
      * intros v Hv. apply elem_of_cons in Hv as [->|Hv];
          [apply Hmax, list_elem_of_here|].
        apply elem_of_cons in Hv as [->|Hv].
        -- apply Qle_trans with (JS.value x); [exact Hyx|].
           apply Hmax, list_elem_of_here.
        -- apply Hmax, list_elem_of_further, Hv.
Qed.

(** [Math.max] of a non-empty list of finite numbers is one of them and
    bounds them all. *)
Lemma Math_max_finite x l :
  exists m,
    JS.Math_max (JS.Finite <$> x :: l) = JS.Finite m
    /\ m ∈ x :: l
    /\ forall v, v ∈ x :: l -> (JS.value v <= JS.value m)%Q.
Proof. exact (fold_max2_finite l x). Qed.

(** The chain of maps and filters of the code collects the values of the
    specification. *)
Lemma slot_versions_values b fs :
  slot_versions b fs = JS.Finite <$> slot_values b fs.
Proof.
  unfold slot_versions, slot_values.
  induction fs as [|f fs IH]; [reflexivity|].
  rewrite filter_cons. cbn [List.map List.filter].
  destruct (String.eqb_spec (slot b (support f)) "No") as [Hno|Hno]; cbn [negb].
  - rewrite decide_False by (intros H; apply H, Hno). exact IH.
  - rewrite decide_True by exact Hno. cbn [List.map List.filter].
    assert (Hg : (if JS.includes (slot b (support f)) "*"
                  then JS.parseFloat (JS.keep_digits_dots (slot b (support f)))
                  else JS.parseFloat (JS.keep_digits_dots (slot b (support f))))
                 = numeric_prefix (slot b (support f)))
      by (destruct (JS.includes _ _); reflexivity).
    rewrite Hg. simpl omap.
    destruct (parseFloat_cases (JS.keep_digits_dots (slot b (support f))))
      as [Hnan|(d & Hd & _)]; unfold numeric_prefix in *.
    + rewrite Hnan. cbn [JS.isNaN negb]. exact IH.
    + rewrite Hd. cbn [JS.isNaN negb fmap list_fmap]. f_equal. exact IH.
Qed.

Lemma slot_calculateMinimumVersions b fs :
  slot b (calculateMinimumVersions fs) = minimum_version b fs.
Proof. destruct b; reflexivity. Qed.

Lemma slot_values_elem b fs d :
  d ∈ slot_values b fs
  <-> exists f, f ∈ fs /\ numeric_prefix (slot b (support f)) = JS.Finite d.
Proof.
  unfold slot_values. rewrite list_elem_of_omap. split.
  - intros (f & Hf & Hd). apply list_elem_of_filter in Hf as [_ Hf].
    exists f. split; [exact Hf|].
    destruct (numeric_prefix (slot b (support f))); congruence.
  - intros (f & Hf & Hd). exists f. split.
    + apply list_elem_of_filter. split; [|exact Hf].
      intros Hno. rewrite Hno in Hd. discriminate.
    + rewrite Hd. reflexivity.
Qed.

Lemma slot_values_canonical b fs d : d ∈ slot_values b fs -> canonical d.
Proof.
  intros H. apply slot_values_elem in H as (f & _ & Hd).
  unfold numeric_prefix in Hd.
  destruct (parseFloat_cases (JS.keep_digits_dots (slot b (support f))))
    as [Hnan|(d' & Hd' & Hc)]; congruence.
Qed.

Lemma minimum_version_spec (b : Browser) (fs : list FeatureSupport) :
  match slot_values b fs with
  | [] => slot b (calculateMinimumVersions fs) = "No"
  | _ :: _ =>
      exists m,
        m ∈ slot_values b fs
        /\ (forall v, v ∈ slot_values b fs -> (JS.value v <= JS.value m)%Q)
        /\ slot b (calculateMinimumVersions fs)
           = JS.toString (JS.Finite m) +:+ "+"
        /\ numeric_prefix (slot b (calculateMinimumVersions fs)) = JS.Finite m
        /\ (forall f d,
              f ∈ fs ->
              numeric_prefix (slot b (support f)) = JS.Finite d ->
              (JS.value d <= JS.value m)%Q)
  end.
Proof.
  rewrite slot_calculateMinimumVersions. unfold minimum_version.
  rewrite slot_versions_values.
  pose proof (slot_values_canonical b fs) as Hcan.
  pose proof (slot_values_elem b fs) as Helem.
  destruct (slot_values b fs) as [|x l]; [reflexivity|].
  cbn [fmap list_fmap length]. rewrite Nat2Z.inj_succ.
  destruct (Z.eqb_spec (Z.succ (Z.of_nat (length (JS.Finite <$> l)))) 0); [lia|].
  destruct (Math_max_finite x l) as (m & Hm & Hin & Hmax).
  cbn [fmap list_fmap] in Hm. rewrite Hm.
  exists m. split; [exact Hin|]. split; [exact Hmax|].
  split; [reflexivity|]. split.
  - apply numeric_prefix_toString, Hcan, Hin.
  - intros f d Hf Hd. apply Hmax, Helem. eauto.
Qed.

(** *** The code against the specification

    Stripping with the regular expression is the stripping of the
    specification, and the numeral [parseFloat] builds denotes the
    floating-point value of the specification. *)

Lemma is_digit_or_period_spec c :
  is_digit_or_period c = JS.is_digit c || JS.is_dot c.
Proof. destruct c as [[] [] [] [] [] [] [] []]; reflexivity. Qed.

Lemma digit_of_spec c :
  digit_of c = if JS.is_digit c then Some (Z.of_nat (nat_of_ascii c) - 48) else None.
Proof. destruct c as [[] [] [] [] [] [] [] []]; reflexivity. Qed.

Lemma keep_digits_dots_stripped s : JS.keep_digits_dots s = stripped s.
Proof.
  unfold stripped. induction s as [|c s IH]; [reflexivity|].
  cbn [JS.keep_digits_dots list_ascii_of_string List.filter].
  rewrite is_digit_or_period_spec.
  destruct (JS.is_digit c || JS.is_dot c).
  - cbn [string_of_list_ascii]. f_equal. exact IH.
  - exact IH.
Qed.

Lemma leading_digits_take_digits s :
  leading_digits (list_ascii_of_string s)
  = (digits_of (fst (JS.take_digits s)),
     list_ascii_of_string (snd (JS.take_digits s))).
Proof.
  induction s as [|c s IH]; [reflexivity|].
  cbn [list_ascii_of_string leading_digits JS.take_digits].
  rewrite digit_of_spec. destruct (JS.is_digit c); [|reflexivity].
  rewrite IH. destruct (JS.take_digits s) as [ds tl]. reflexivity.
Qed.

Lemma digits_value_whole s acc :
  JS.digits_value acc s
  = acc * 10 ^ Z.of_nat (String.length s) + whole (digits_of s).
Proof.
  revert acc. induction s as [|c s IH]; intros acc.
  - cbn. lia.
  - cbn [JS.digits_value]. rewrite IH.
    change (digits_of (String c s))
      with ((Z.of_nat (nat_of_ascii c) - 48) :: digits_of s).
    cbn [whole String.length].
    replace (length (digits_of s)) with (String.length s).
    + rewrite Nat2Z.inj_succ, Z.pow_succ_r by lia. ring.
    + unfold digits_of. rewrite length_fmap.
      clear. induction s as [|c s IH]; [reflexivity|].
      cbn [String.length list_ascii_of_string length]. f_equal. exact IH.
Qed.

Lemma digits_of_length s : length (digits_of s) = String.length s.
Proof.
  unfold digits_of. rewrite length_fmap.
  induction s as [|c s IH]; [reflexivity|].
  cbn [String.length list_ascii_of_string length]. f_equal. exact IH.
Qed.

Lemma digits_of_cons c s :
  digits_of (String c s) = (Z.of_nat (nat_of_ascii c) - 48) :: digits_of s.
Proof. reflexivity. Qed.

Lemma whole_drop_leading_zeros s :
  whole (digits_of (JS.drop_leading_zeros s)) = whole (digits_of s).
Proof.
  induction s as [|c s IH]; [reflexivity|].
  cbn [JS.drop_leading_zeros].
  destruct (Ascii.eqb_spec c "0") as [->|_]; [|reflexivity].
  rewrite IH, digits_of_cons. cbn [whole].
  change (Z.of_nat (nat_of_ascii "0") - 48) with 0. lia.
Qed.

Lemma fractional_cons d ds :
  (fractional (d :: ds) == (inject_Z d + fractional ds) * (1 # 10))%Q.
Proof. reflexivity. Qed.

Lemma fractional_drop_trailing_zeros s :
  (fractional (digits_of (JS.drop_trailing_zeros s))
   == fractional (digits_of s))%Q.
Proof.
  induction s as [|c s IH]; [reflexivity|].
  cbn [JS.drop_trailing_zeros].
  destruct (Ascii.eqb_spec c "0") as [->|_]; cbn [andb].
  - destruct (String.eqb_spec (JS.drop_trailing_zeros s) "") as [He|_].
    + rewrite He in IH. rewrite digits_of_cons, fractional_cons, <- IH.
      reflexivity.
    + rewrite !digits_of_cons, !fractional_cons, IH. reflexivity.
  - rewrite !digits_of_cons, !fractional_cons, IH. reflexivity.
Qed.

Lemma fractional_whole ds :
  (fractional ds
   == Qmake (whole ds) (Z.to_pos (10 ^ Z.of_nat (length ds))))%Q.
Proof.
  induction ds as [|d ds IH]; [reflexivity|].
  rewrite fractional_cons, IH. cbn [whole length].
  rewrite Nat2Z.inj_succ, Z.pow_succ_r by lia.
  set (n := Z.of_nat (length ds)).
  assert (Hp : 0 < 10 ^ n) by (apply Z.pow_pos_nonneg; lia).
  unfold Qeq, Qmult, Qplus, inject_Z. cbn [Qnum Qden].
  rewrite !Pos2Z.inj_mul, !Z2Pos.id by lia.
  ring.
Qed.

(** What [parseFloat] reads is the floating-point value of the text. *)
Lemma parseFloat_float_value s :
  match JS.parseFloat s with
  | JS.Finite d => exists q, float_value s = Some q /\ (q == JS.value d)%Q
  | JS.NaN => float_value s = None
  | JS.NegInfinity => False
  end.
Proof.
  unfold JS.parseFloat, float_value.
  rewrite leading_digits_take_digits.
  destruct (JS.take_digits s) as [ip rest]. cbn [fst snd].
  set (fp := match rest with
             | String c tl => if JS.is_dot c then fst (JS.take_digits tl) else ""
             | EmptyString => ""
             end).
  assert (Hfp : match list_ascii_of_string rest with
                | c :: tl => if Ascii.eqb c "." then fst (leading_digits tl) else []
                | [] => []
                end = digits_of fp).
  { subst fp. destruct rest as [|c tl]; [reflexivity|].
    cbn [list_ascii_of_string]. unfold JS.is_dot.
    destruct (Ascii.eqb c "."); [|reflexivity].
    rewrite leading_digits_take_digits. reflexivity. }
  rewrite Hfp. clearbody fp. clear Hfp.
  assert (Hval : (inject_Z (whole (digits_of ip)) + fractional (digits_of fp)
                  == JS.value (JS.mkDecimal (JS.drop_leading_zeros ip)
                                            (JS.drop_trailing_zeros fp)))%Q).
  { unfold JS.value. cbn [JS.int_part JS.frac_part].
    rewrite !digits_value_whole, !Z.mul_0_l, !Z.add_0_l.
    rewrite whole_drop_leading_zeros.
    rewrite <- (fractional_drop_trailing_zeros fp).
    rewrite (fractional_whole (digits_of (JS.drop_trailing_zeros fp))).
    unfold JS.len. rewrite digits_of_length. reflexivity. }
  destruct ip as [|c ip].
  - destruct fp as [|c fp]; [reflexivity|].
    cbn [String.eqb andb]. eexists. split; [reflexivity|exact Hval].
  - cbn [String.eqb andb]. eexists. split; [reflexivity|exact Hval].
Qed.

Lemma numeric_prefix_version_value s :
  match numeric_prefix s with
  | JS.Finite d => exists q, version_value s = Some q /\ reads d q
  | JS.NaN => version_value s = None
  | JS.NegInfinity => False
  end.
Proof.
  unfold numeric_prefix, version_value. rewrite keep_digits_dots_stripped.
  apply parseFloat_float_value.
Qed.

Lemma slot_values_surviving b fs :
  Forall2 reads (slot_values b fs) (surviving_values b fs).
Proof.
  unfold slot_values, surviving_values.
  induction fs as [|f fs IH]; [constructor|].
  rewrite fmap_cons, !filter_cons.
  destruct (decide (slot b (support f) <> "No")) as [Hne|He]; [|exact IH].
  change (omap ?g (?x :: ?l))
    with (match g x with Some y => y :: omap g l | None => omap g l end).
  cbv beta.
  pose proof (numeric_prefix_version_value (slot b (support f))) as H.
  destruct (numeric_prefix (slot b (support f))) as [| |d].
  - rewrite H. exact IH.
  - contradiction.
  - destruct H as (q & -> & Hq). constructor; assumption.
Qed.

Lemma Forall2_elem_l {A B} (R : A -> B -> Prop) l k x :
  Forall2 R l k -> x ∈ l -> exists y, y ∈ k /\ R x y.
Proof.
  induction 1 as [|a b l k Hab _ IH]; intros Hx; [inversion Hx|].
  apply elem_of_cons in Hx as [->|Hx].
  - exists b. split; [apply list_elem_of_here|exact Hab].
  - destruct (IH Hx) as (y & Hy & Hr). exists y.
    split; [apply list_elem_of_further, Hy|exact Hr].
Qed.

Lemma Forall2_elem_r {A B} (R : A -> B -> Prop) l k y :
  Forall2 R l k -> y ∈ k -> exists x, x ∈ l /\ R x y.
Proof.
  induction 1 as [|a b l k Hab _ IH]; intros Hy; [inversion Hy|].
  apply elem_of_cons in Hy as [->|Hy].
  - exists a. split; [apply list_elem_of_here|exact Hab].
  - destruct (IH Hy) as (x & Hx & Hr). exists x.
    split; [apply list_elem_of_further, Hx|exact Hr].
Qed.

Lemma list_ascii_of_string_append s t :
  list_ascii_of_string (s +:+ t)
  = list_ascii_of_string s ++ list_ascii_of_string t.
Proof.
  induction s as [|c s IH]; [reflexivity|].
  rewrite append_cons. cbn [list_ascii_of_string]. rewrite IH. reflexivity.
Qed.

Lemma all_digits_Forall s :
  all_digits s = true ->
  Forall (fun c => is_Some (digit_of c)) (list_ascii_of_string s).
Proof.
  induction s as [|c s IH]; intros H; [constructor|].
  cbn [all_digits] in H. apply andb_true_iff in H as [Hc H].
  cbn [list_ascii_of_string]. constructor; [|exact (IH H)].
  rewrite digit_of_spec, Hc. eauto.
Qed.

Lemma drop_leading_zeros_length s :
  (String.length (JS.drop_leading_zeros s) <= Nat.max 1 (String.length s))%nat.
Proof.
  induction s as [|c s IH]; [cbn; lia|].
  cbn [JS.drop_leading_zeros]. destruct (Ascii.eqb c "0"); cbn [String.length]; lia.
Qed.

Lemma canonical_leading_zero ip :
  JS.drop_leading_zeros ip = ip ->
  head (list_ascii_of_string ip) = Some "0"%char ->
  list_ascii_of_string ip = ["0"%char].
Proof.
  destruct ip as [|c ip]; [discriminate|].
  cbn [list_ascii_of_string head]. intros Hlz [= ->].
  cbn [JS.drop_leading_zeros] in Hlz.
  change (Ascii.eqb "0" "0") with true in Hlz. cbv iota in Hlz.
  pose proof (drop_leading_zeros_length ip) as Hlen.
  rewrite Hlz in Hlen. cbn [String.length] in Hlen.
  destruct ip as [|c ip]; [reflexivity|]. cbn [String.length] in Hlen. lia.
Qed.

Lemma drop_trailing_zeros_last s :
  last (list_ascii_of_string (JS.drop_trailing_zeros s)) <> Some "0"%char.
Proof.
  induction s as [|c s IH]; [discriminate|].
  cbn [JS.drop_trailing_zeros].
  destruct (Ascii.eqb_spec c "0") as [->|Hc]; cbn [andb].
  - destruct (String.eqb_spec (JS.drop_trailing_zeros s) "") as [He|Hne];
      [discriminate|].
    cbn [list_ascii_of_string].
    destruct (JS.drop_trailing_zeros s) as [|c' s']; [contradiction|].
    exact IH.
  - cbn [list_ascii_of_string].
    destruct (JS.drop_trailing_zeros s) as [|c' s'].
    + cbn. congruence.
    + exact IH.
Qed.

Lemma keep_digits_dots_numeral d :
  canonical d ->
  JS.keep_digits_dots (JS.toString (JS.Finite d) +:+ "+")
  = JS.toString (JS.Finite d).
Proof.
  destruct d as [ip fp]. intros (Hip & Hfp & _ & _).
  cbn [JS.int_part JS.frac_part] in *.
  unfold JS.toString. cbn [JS.frac_part JS.int_part].
  assert (Hplus : JS.keep_digits_dots "+" = "") by reflexivity.
  destruct (String.eqb fp "").
  - rewrite keep_digits_dots_id, Hplus, append_empty_r by exact Hip.
    reflexivity.
  - rewrite append_assoc_r, keep_digits_dots_id by exact Hip.
    rewrite !append_cons, append_nil_l.
    change (JS.keep_digits_dots (String "." (fp +:+ "+")))
      with (String "."%char (JS.keep_digits_dots (fp +:+ "+"))).
    rewrite keep_digits_dots_id, Hplus, append_empty_r by exact Hfp.
    reflexivity.
Qed.

Lemma parseFloat_toString d :
  canonical d -> JS.parseFloat (JS.toString (JS.Finite d)) = JS.Finite d.
Proof.
  intros Hd. rewrite <- (keep_digits_dots_numeral d Hd) at 1.
  exact (numeric_prefix_toString d Hd).
Qed.

Lemma toString_decimal_notation d :
  canonical d -> decimal_notation (JS.toString (JS.Finite d)) (JS.value d).
Proof.
  intros Hd. pose proof (parseFloat_toString d Hd) as Hpf.
  pose proof (parseFloat_float_value (JS.toString (JS.Finite d))) as Hfv.
  rewrite Hpf in Hfv.
  destruct d as [ip fp]. destruct Hd as (Hip & Hfp & Hlz & Htz).
  cbn [JS.int_part JS.frac_part] in *.
  exists (list_ascii_of_string ip), (list_ascii_of_string fp).
  split; [|split; [|split; [|split; [|split]]]].
  - unfold JS.toString. cbn [JS.frac_part JS.int_part].
    destruct fp as [|c fp].
    + cbn [String.eqb list_ascii_of_string]. rewrite app_nil_r. reflexivity.
    + cbn [String.eqb]. rewrite list_ascii_of_string_append. reflexivity.
  - apply Forall_app. split; apply all_digits_Forall; assumption.
  - intros He. apply (drop_leading_zeros_nonempty ip). rewrite Hlz.
    destruct ip; [reflexivity|discriminate He].
  - apply canonical_leading_zero, Hlz.
  - rewrite <- Htz. apply drop_trailing_zeros_last.
  - exact Hfv.
Qed.

Lemma decimal_notation_Qeq numeral p q :
  (p == q)%Q -> decimal_notation numeral p -> decimal_notation numeral q.
Proof.
  intros Hpq (ip & fp & H1 & H2 & H3 & H4 & H5 & r & Hr & Hrp).
  exists ip, fp. repeat (split; [assumption|]).
  exists r. split; [exact Hr|]. rewrite Hrp. exact Hpq.
Qed.

(** C5: for each of the five browser slots of the matrix built from a
    finalized list of detected features, take that slot's version strings
    over all features, leave out the [No] entries, strip each survivor of
    every character that is neither a digit nor a period and take its
    floating-point value.  If no numeric value survives the slot is [No];
    otherwise it is the plain decimal notation of the largest surviving
    value followed by [+], so that the numeric prefix of the slot is that
    maximum, which bounds the numeric prefix of the same slot of every
    detected feature. *)
Theorem minimum_version_is_maximum (b : Browser) (dfs : list DetectedFeature) :
  let values := surviving_values b (base <$> dfs) in
  let result := slot b (minimumVersions (build_result dfs)) in
  match values with
  | [] => result = "No"
  | _ :: _ =>
      exists m numeral,
        m ∈ values
        /\ (forall v, v ∈ values -> (v <= m)%Q)
        /\ result = numeral +:+ "+"
        /\ decimal_notation numeral m
        /\ (exists p, version_value result = Some p /\ (p == m)%Q)
        /\ (forall (df : DetectedFeature) v,
              df ∈ dfs ->
              version_value (slot b (support df)) = Some v ->
              (v <= m)%Q)
  end.
Proof.
  cbv zeta. cbn [minimumVersions build_result].
  pose proof (minimum_version_spec b (base <$> dfs)) as H.
  pose proof (slot_values_surviving b (base <$> dfs)) as Hrel.
  pose proof (slot_values_canonical b (base <$> dfs)) as Hcan.
  destruct (slot_values b (base <$> dfs)) as [|x l] eqn:Hsv.
  { inversion Hrel. exact H. }
  destruct H as (d & Hin & Hmax & Hres & Hpre & Hall).
  destruct (Forall2_elem_l _ _ _ _ Hrel Hin) as (m & Hm & Hdm).
  assert (Hne : surviving_values b (base <$> dfs) <> [])
    by (intros He; rewrite He in Hm; inversion Hm).
  destruct (surviving_values b (base <$> dfs)) as [|y k] eqn:Hvs;
    [contradiction|].
  unfold reads in Hdm.
  exists m, (JS.toString (JS.Finite d)).
  split; [exact Hm|]. split.
  { intros v Hv. destruct (Forall2_elem_r _ _ _ _ Hrel Hv) as (dv & Hdv & Hr).
    unfold reads in Hr. rewrite Hr, Hdm. apply Hmax, Hdv. }
  split; [exact Hres|]. split.
  { apply (decimal_notation_Qeq _ (JS.value d)); [symmetry; exact Hdm|].
    apply toString_decimal_notation, Hcan, Hin. }
  split.
  { pose proof (numeric_prefix_version_value
                  (slot b (calculateMinimumVersions (base <$> dfs)))) as Hv.
    rewrite Hpre in Hv. destruct Hv as (p & Hp & Hr).
    exists p. split; [exact Hp|]. unfold reads in Hr. rewrite Hr, Hdm.
    reflexivity. }
  intros df v Hdf Hv.
  pose proof (numeric_prefix_version_value (slot b (support df))) as Hn.
  destruct (numeric_prefix (slot b (support df))) as [| |dv] eqn:Hnp.
  - congruence.
  - contradiction.
  - destruct Hn as (q & Hq & Hr). rewrite Hv in Hq. injection Hq as <-.
    unfold reads in Hr. rewrite Hr, Hdm.
    apply (Hall (base df)); [|exact Hnp].
    apply list_elem_of_fmap. eauto.
Qed.

(** The values of the specification on version strings of the catalogue,
    and on texts with a second period, without integer part and without
    digits. *)
Example version_value_examples :
  version_value "15.4" = Some (154 # 10)%Q
  /\ version_value "11*" = Some (11 # 1)%Q
  /\ version_value "No" = None
  /\ version_value "10.3.1" = Some (103 # 10)%Q
  /\ version_value ".5" = Some (5 # 10)%Q
  /\ version_value "." = None
  /\ surviving_values IE
       [mkFS "a" "" (mkSupport "1" "1" "1" "1" "11*") None;
        mkFS "b" "" (mkSupport "1" "1" "1" "1" "No") None;
        mkFS "c" "" (mkSupport "1" "1" "1" "1" "9") None]
     = [(11 # 1)%Q; (9 # 1)%Q].
Proof. repeat split; reflexivity. Qed.

(** The matrix of the [arr.at(0)] scenario: three features, the Safari slot
    decided by the non-integer version 15.4. *)
Example minimum_versions_arr_at :
  calculateMinimumVersions
    (omap (fun k => featureMap !! k) ["array-at"; "string-at"; "typedarray-at"])
  = mkSupport "92+" "90+" "15.4+" "92+" "No".
Proof. vm_compute. reflexivity. Qed.

(** Every version string of the catalogue strips to at most four
    characters, well inside the range where the decimal reading of
    [parseFloat] and [toString] is exact. *)
Lemma catalogue_versions_short :
  forallb (fun kf =>
             forallb (fun b => (String.length
                                  (JS.keep_digits_dots (slot b (support (snd kf))))
                                <=? 4)%nat)
                     browsers)
          featureMap_entries
  = true.
Proof. vm_compute. reflexivity. Qed.

(** * Further properties of the code *)

(** ** The accumulator over a whole run *)

Lemma detect_calls parse code ast :
  parse code = Parsed ast ->
  detect parse code
  = inr (run_calls code (initial_calls code ++ tree_calls ast) empty_acc).
Proof.
  intros H. unfold detect, initial_calls. rewrite H, traverse_calls.
  destruct (JS.startsWith code "#!"); reflexivity.
Qed.

Lemma detect_inv parse code a :
  detect parse code = inr a ->
  exists ast,
    parse code = Parsed ast
    /\ a = run_calls code (initial_calls code ++ tree_calls ast) empty_acc.
Proof.
  intros H. destruct (parse code) as [ast|e] eqn:Hp.
  - rewrite (detect_calls _ _ _ Hp) in H. injection H as <-. eauto.
  - unfold detect in H. rewrite Hp in H. discriminate.
Qed.

Lemma run_call_detected code c a :
  detectedFeatures (run_call code c a)
  = set_add_string (call_key c) (detectedFeatures a).
Proof. destruct c; [apply addFeature_detected|reflexivity]. Qed.

Lemma set_add_string_NoDup k l : NoDup l -> NoDup (set_add_string k l).
Proof.
  intros Hl. unfold set_add_string. destruct (existsb _ l) eqn:Hex; [exact Hl|].
  apply NoDup_app. split; [exact Hl|]. split; [|apply NoDup_singleton].
  intros x Hx Hk. apply list_elem_of_singleton in Hk. subst x.
  assert (existsb (String.eqb k) l = true); [|congruence].
  apply existsb_exists. exists k. split; [apply list_elem_of_In, Hx|].
  apply String.eqb_refl.
Qed.

Lemma set_add_string_prefix k l : l `prefix_of` set_add_string k l.
Proof.
  unfold set_add_string. destruct (existsb _ l); [reflexivity|].
  apply prefix_app_r. reflexivity.
Qed.

Lemma run_calls_cons code c cs a :
  run_calls code (c :: cs) a = run_calls code cs (run_call code c a).
Proof. reflexivity. Qed.

Lemma run_calls_NoDup code cs :
  forall a, NoDup (detectedFeatures a) ->
            NoDup (detectedFeatures (run_calls code cs a)).
Proof.
  induction cs as [|c cs IH]; intros a Ha; [exact Ha|].
  rewrite run_calls_cons. apply IH. rewrite run_call_detected.
  apply set_add_string_NoDup, Ha.
Qed.

Lemma detected_keys_distinct_aux parse code a :
  detect parse code = inr a -> NoDup (detectedFeatures a).
Proof.
  intros H. apply detect_inv in H as (ast & _ & ->).
  apply run_calls_NoDup. constructor.
Qed.

Lemma run_calls_prefix code cs :
  forall a, detectedFeatures a `prefix_of` detectedFeatures (run_calls code cs a).
Proof.
  induction cs as [|c cs IH]; intros a; [reflexivity|].
  rewrite run_calls_cons. etrans; [|apply IH].
  rewrite run_call_detected. apply set_add_string_prefix.
Qed.

(** X2: running further calls never removes or moves a recorded key; the
    keys recorded so far stay as a prefix of the list, so the list is in
    order of first detection. *)
Theorem recorded_keys_stay_in_front code cs a :
  detectedFeatures a `prefix_of` detectedFeatures (run_calls code cs a).
Proof. apply run_calls_prefix. Qed.

Lemma run_calls_detected_elem code cs :
  forall a k,
    k ∈ detectedFeatures (run_calls code cs a)
    <-> k ∈ detectedFeatures a \/ exists c, c ∈ cs /\ call_key c = k.
Proof.
  induction cs as [|c cs IH]; intros a k.
  - split; [auto|]. intros [H|(c & Hc & _)]; [exact H|inversion Hc].
  - rewrite run_calls_cons, IH, run_call_detected, elem_of_set_add_string.
    split.
    + intros [[->|H]|(c' & Hc' & Hk)]; [right|left|right].
      * exists c. split; [apply list_elem_of_here|reflexivity].
      * exact H.
      * exists c'. split; [apply list_elem_of_further, Hc'|exact Hk].
    + intros [H|(c' & Hc' & Hk)]; [left; right; exact H|].
      apply elem_of_cons in Hc' as [->|Hc']; [left; left; congruence|].
      right. eauto.
Qed.

(** X3: the set of recorded keys does not depend on the order in which the
    calls are made: two runs over the same calls in different orders record
    the same keys. *)
Theorem recorded_keys_order_independent code cs1 cs2 a k :
  cs1 ≡ₚ cs2 ->
  k ∈ detectedFeatures (run_calls code cs1 a)
  <-> k ∈ detectedFeatures (run_calls code cs2 a).
Proof.
  intros Hp. rewrite !run_calls_detected_elem.
  split; intros [H|(c & Hc & Hk)]; auto; right; exists c;
    (split; [|exact Hk]); [rewrite <- Hp|rewrite Hp]; exact Hc.
Qed.

Lemma recorded_keys_order_independent_witness :
  "string-at" ∈ detectedFeatures
                   (run_calls src_arr_at
                      [CallDetectedAdd "bigint";
                       CallAddFeature "string-at" (Some 0) (Some 9)] empty_acc)
  <-> "string-at" ∈ detectedFeatures
                       (run_calls src_arr_at
                          [CallAddFeature "string-at" (Some 0) (Some 9);
                           CallDetectedAdd "bigint"] empty_acc).
Proof.
  apply recorded_keys_order_independent. apply Permutation_swap.
Defined.

Lemma fresh_empty : fresh empty_acc.
Proof.
  intros k os o H. cbn [empty_acc featureSnippets] in H.
  rewrite lookup_empty in H. discriminate.
Qed.

Lemma run_call_fresh code c a : fresh a -> fresh (run_call code c a).
Proof.
  intros Hf. destruct c as [k [s|] [e|]|k]; cbn [run_call];
    [apply addFeature_fresh, Hf|exact Hf..].
Qed.

Lemma snippets_of_other code k' s e a k :
  k' <> k ->
  snippets_of (addFeature code k' (Some s) (Some e) a) k = snippets_of a k.
Proof.
  intros Hne. unfold snippets_of.
  rewrite addFeature_snippets, lookup_insert_ne by exact Hne. reflexivity.
Qed.

Lemma run_call_snippets code c a k :
  fresh a ->
  obj_val <$> snippets_of (run_call code c a) k
  = (obj_val <$> snippets_of a k)
    ++ ((fun se => extractSnippet code (fst se) (snd se))
          <$> submissions k [c]).
Proof.
  intros Hf. destruct c as [k' [s|] [e|]|k']; cbn [run_call submissions omap list_omap];
    try (rewrite app_nil_r; reflexivity).
  destruct (String.eqb_spec k' k) as [->|Hne].
  - rewrite addFeature_appends by exact Hf. rewrite fmap_app. reflexivity.
  - rewrite snippets_of_other by exact Hne. cbn. rewrite app_nil_r. reflexivity.
Qed.

Lemma submissions_cons k c cs :
  submissions k (c :: cs) = submissions k [c] ++ submissions k cs.
Proof.
  unfold submissions. change (c :: cs) with ([c] ++ cs). apply omap_app.
Qed.

(** The evidence of a key after a run: what was there, then one evidence
    per submitted span, in order of submission. *)
Lemma run_calls_snippets code cs :
  forall a k,
    fresh a ->
    obj_val <$> snippets_of (run_calls code cs a) k
    = (obj_val <$> snippets_of a k)
      ++ ((fun se => extractSnippet code (fst se) (snd se))
            <$> submissions k cs).
Proof.
  induction cs as [|c cs IH]; intros a k Hf.
  - cbn. rewrite app_nil_r. reflexivity.
  - rewrite run_calls_cons, IH by (apply run_call_fresh, Hf).
    rewrite run_call_snippets by exact Hf.
    rewrite (submissions_cons k c cs), fmap_app, app_assoc. reflexivity.
Qed.

Lemma build_features_elem a (df : DetectedFeature) :
  df ∈ build_features a
  <-> exists k,
        k ∈ detectedFeatures a
        /\ featureMap !! k = Some (base df)
        /\ codeSnippets df = obj_val <$> snippets_of a k.
Proof.
  unfold build_features, snippets_of. rewrite list_elem_of_omap.
  split; intros (k & Hk & H); exists k; (split; [exact Hk|]).
  - destruct (featureMap !! k) as [fs|]; [|discriminate].
    injection H as <-. split; [reflexivity|].
    cbn. destruct (featureSnippets a !! k); reflexivity.
  - destruct H as (Hfs & Hsn). rewrite Hfs. destruct df as [fs sn].
    cbn in *. subst sn. f_equal. f_equal.
    destruct (featureSnippets a !! k); reflexivity.
Qed.

(** X4: the snippets of every returned feature are exactly the spans
    submitted for its key during the run (the hashbang check first, then the
    traversal), one snippet per submission and in that order, so a span
    submitted n times appears n times. *)
Theorem snippets_are_the_submissions parse code ast :
  parse code = Parsed ast ->
  exists r,
    analyzeCode parse code = Resolved r
    /\ forall df : DetectedFeature,
         df ∈ features r ->
         exists k,
           featureMap !! k = Some (base df)
           /\ codeSnippets df
              = (fun se => extractSnippet code (fst se) (snd se))
                  <$> submissions k (initial_calls code ++ tree_calls ast).
Proof.
  intros Hp. unfold analyzeCode. rewrite (detect_calls _ _ _ Hp).
  eexists. split; [reflexivity|]. cbn [features build_result].
  intros df Hdf. apply build_features_elem in Hdf as (k & _ & Hfs & Hsn).
  exists k. split; [exact Hfs|]. rewrite Hsn.
  rewrite run_calls_snippets by apply fresh_empty. reflexivity.
Qed.

Lemma snippets_are_the_submissions_witness :
  exists r,
    analyzeCode scenario_parse src_arr_at = Resolved r
    /\ forall df : DetectedFeature,
         df ∈ features r ->
         exists k,
           featureMap !! k = Some (base df)
           /\ codeSnippets df
              = (fun se => extractSnippet src_arr_at (fst se) (snd se))
                  <$> submissions k (initial_calls src_arr_at
                                     ++ tree_calls ast_arr_at).
Proof.
  apply (snippets_are_the_submissions scenario_parse src_arr_at ast_arr_at).
  reflexivity.
Defined.

(** ** The keys the visitors record *)

Lemma elem_of_by_name_key c table name n :
  c ∈ by_name table name n -> exists k, k ∈ table_keys table /\ c = add k n.
Proof.
  unfold by_name, table_keys. intros H.
  apply list_elem_of_In, in_flat_map in H as (row & Hrow & H).
  apply list_elem_of_In, elem_of_when, list_elem_of_In, in_map_iff in H
    as (k & <- & Hk).
  exists k. split; [|reflexivity].
  apply list_elem_of_In, in_flat_map. eauto.
Qed.

Lemma table_keys_ok table k :
  forallb visitor_key (table_keys table) = true ->
  k ∈ table_keys table -> visitor_key k = true.
Proof.
  intros Hall Hk. rewrite forallb_forall in Hall.
  apply Hall, list_elem_of_In, Hk.
Qed.

Ltac split_calls_keys :=
  repeat match goal with
    | H : _ ∈ _ ++ _ |- _ => apply elem_of_app in H as [H|H]
    | H : _ ∈ when _ _ |- _ => apply elem_of_when in H
    | H : _ ∈ by_name ?T _ _ |- _ =>
        apply elem_of_by_name_key in H as (? & H & ->);
        cbn [call_key add];
        apply (table_keys_ok T); [vm_compute; reflexivity|exact H]
    | H : _ ∈ [] |- _ => inversion H
    | H : _ ∈ _ :: _ |- _ => apply elem_of_cons in H as [->|H]
    end.

Lemma visitors_keys :
  Forall (fun tv => forall n scope c,
            c ∈ snd tv n scope -> visitor_key (call_key c) = true)
         visitors.
Proof.
  unfold visitors.
  repeat (apply Stdlib.Lists.List.Forall_cons;
          [cbn [snd]; intros n scope c H;
           unfold visit_ArrowFunctionExpression, visit_VariableDeclaration,
             visit_AwaitExpression, visit_function, visit_NewExpression,
             visit_ClassProperty, visit_ForOfStatement,
             visit_LogicalExpression, visit_AssignmentExpression,
             visit_ObjectProperty, visit_ImportDeclaration,
             visit_NumericLiteral, visit_CallExpression,
             visit_MemberExpression, visit_RegExpLiteral,
             visit_function_params, call_statics in H;
           cbv zeta in H; split_calls_keys; vm_compute; reflexivity|]).
  apply Stdlib.Lists.List.Forall_nil.
Qed.

(** Whatever node a visitor is run on, the keys it records are keys of the
    catalogue, and none of them is the hashbang key. *)
Lemma visit_key n scope c :
  c ∈ visit n scope -> visitor_key (call_key c) = true.
Proof.
  unfold visit. destruct (assoc (ntype n) visitors) as [v|] eqn:Hv.
  - apply assoc_In in Hv.
    pose proof (proj1 (Forall_forall _ _) visitors_keys _
                  (proj2 (list_elem_of_In _ _) Hv)) as Hok.
    apply Hok.
  - intros H; inversion H.
Qed.

Lemma node_calls_Forall (P : Call -> Prop) :
  (forall n scope c, c ∈ visit n scope -> P c) ->
  forall n parent_ty scope, Forall P (node_calls parent_ty scope n).
Proof.
  intros HP n.
  induction n as [ty s e ss fl cs IH] using Node_nested_ind.
  intros parent_ty scope. cbn [node_calls ntype nchildren].
  set (scope' := if Babel.isScope ty parent_ty then ty :: scope else scope).
  apply Forall_app. split.
  - apply Forall_forall. intros c Hc. eapply HP, Hc.
  - clearbody scope'. induction IH as [|[k c] rest Hc _ IHrest]; [constructor|].
    apply Forall_app. split; [apply Hc|exact IHrest].
Qed.

Lemma tree_calls_Forall (P : Call -> Prop) ast :
  (forall n scope c, c ∈ visit n scope -> P c) ->
  Forall P (tree_calls ast).
Proof.
  intros HP. unfold tree_calls.
  induction (nchildren ast) as [|kc rest IH]; [constructor|].
  cbn [flat_map]. apply Forall_app.
  split; [apply node_calls_Forall, HP|exact IH].
Qed.

Lemma visitor_key_spec k :
  visitor_key k = true <-> in_catalogue k /\ k <> "hashbang".
Proof.
  unfold visitor_key.
  rewrite andb_true_iff, bool_decide_eq_true, negb_true_iff, String.eqb_neq.
  reflexivity.
Qed.

Lemma all_calls_keys code ast c :
  c ∈ initial_calls code ++ tree_calls ast -> in_catalogue (call_key c).
Proof.
  intros H. apply elem_of_app in H as [H|H].
  - unfold initial_calls in H. destruct (JS.startsWith code "#!");
      [|inversion H].
    apply list_elem_of_singleton in H. subst c. vm_compute. eauto.
  - pose proof (tree_calls_Forall (fun c => visitor_key (call_key c) = true)
                  ast visit_key) as Hall.
    rewrite Forall_forall in Hall. apply Hall, visitor_key_spec in H.
    apply H.
Qed.

Lemma detected_in_catalogue parse code a :
  detect parse code = inr a -> Forall in_catalogue (detectedFeatures a).
Proof.
  intros H. apply detect_inv in H as (ast & _ & ->).
  apply Forall_forall. intros k Hk.
  apply run_calls_detected_elem in Hk as [Hk|(c & Hc & <-)]; [inversion Hk|].
  eapply all_calls_keys, Hc.
Qed.

Lemma omap_length_all {A B} (f : A -> option B) (l : list A) :
  Forall (fun x => is_Some (f x)) l -> length (omap f l) = length l.
Proof.
  induction 1 as [|x l [y Hy] _ IH]; [reflexivity|].
  cbn. rewrite Hy. cbn. f_equal. exact IH.
Qed.

Lemma build_features_length a :
  Forall in_catalogue (detectedFeatures a) ->
  length (build_features a) = length (detectedFeatures a).
Proof.
  intros H. unfold build_features. apply omap_length_all.
  eapply Forall_impl; [exact H|]. intros k [fs Hfs]. cbn in *.
  rewrite Hfs. eauto.
Qed.

Lemma in_catalogue_entry k :
  in_catalogue k -> k ∈ fst <$> featureMap_entries.
Proof.
  intros [fs Hfs]. unfold featureMap in Hfs.
  apply elem_of_list_to_map_2 in Hfs.
  apply list_elem_of_fmap. exists (k, fs). split; [reflexivity|exact Hfs].
Qed.

(** X5: no recorded key is ever dropped: every key an analysis records has
    a catalogue entry, so the number of features returned is the number of
    distinct keys recorded, and it is at most the 116 entries of the
    catalogue. *)
Theorem every_recorded_key_is_reported parse code r :
  analyzeCode parse code = Resolved r ->
  exists a,
    detect parse code = inr a
    /\ Forall in_catalogue (detectedFeatures a)
    /\ totalFeatures (summary r) = Z.of_nat (length (detectedFeatures a))
    /\ totalFeatures (summary r) <= 116.
Proof.
  intros H. apply analyzeCode_resolved in H as (a & Hd & ->).
  exists a. split; [exact Hd|].
  pose proof (detected_in_catalogue _ _ _ Hd) as Hcat.
  split; [exact Hcat|].
  cbn [summary build_result totalFeatures].
  rewrite build_features_length by exact Hcat. split; [reflexivity|].
  assert (Hsub : detectedFeatures a ⊆+ fst <$> featureMap_entries).
  { apply NoDup_submseteq; [eapply detected_keys_distinct_aux, Hd|].
    intros k Hk. rewrite Forall_forall in Hcat.
    apply in_catalogue_entry, Hcat, Hk. }
  apply submseteq_length in Hsub. rewrite length_fmap in Hsub.
  change (length featureMap_entries) with 116%nat in Hsub. lia.
Qed.

Lemma every_recorded_key_is_reported_witness :
  exists r,
    analyzeCode scenario_parse src_async_arrow = Resolved r
    /\ exists a,
         detect scenario_parse src_async_arrow = inr a
         /\ Forall in_catalogue (detectedFeatures a)
         /\ totalFeatures (summary r) = Z.of_nat (length (detectedFeatures a))
         /\ totalFeatures (summary r) <= 116.
Proof.
  eexists. split; [reflexivity|].
  apply (every_recorded_key_is_reported scenario_parse src_async_arrow).
  reflexivity.
Defined.

Lemma NoDup_fmap_eq {A B} (f : A -> B) (l : list A) x y :
  NoDup (f <$> l) -> x ∈ l -> y ∈ l -> f x = f y -> x = y.
Proof.
  induction l as [|z l IH]; intros Hnd Hx Hy Hxy; [inversion Hx|].
  rewrite fmap_cons in Hnd. apply NoDup_cons in Hnd as [Hz Hnd].
  apply elem_of_cons in Hx as [->|Hx], Hy as [->|Hy].
  - reflexivity.
  - destruct Hz. rewrite Hxy. apply list_elem_of_fmap. eauto.
  - destruct Hz. rewrite <- Hxy. apply list_elem_of_fmap. eauto.
  - apply IH; assumption.
Qed.

(** The display names of the catalogue are pairwise distinct. *)
Lemma catalogue_names_distinct :
  NoDup ((fun kf => feature (snd kf)) <$> featureMap_entries).
Proof. apply (bool_decide_unpack _). vm_compute. reflexivity. Qed.

Lemma catalogue_name_determines_key k1 k2 f1 f2 :
  featureMap !! k1 = Some f1 ->
  featureMap !! k2 = Some f2 ->
  feature f1 = feature f2 -> k1 = k2.
Proof.
  unfold featureMap. intros H1 H2 Hf.
  apply elem_of_list_to_map_2 in H1, H2.
  pose proof (NoDup_fmap_eq (fun kf => feature (snd kf)) featureMap_entries
                (k1, f1) (k2, f2) catalogue_names_distinct H1 H2 Hf) as Heq.
  congruence.
Qed.

Lemma build_features_names_NoDup a :
  NoDup (detectedFeatures a) ->
  NoDup ((fun df : DetectedFeature => feature (base df)) <$> build_features a).
Proof.
  unfold build_features. generalize (featureSnippets a) as sn.
  induction (detectedFeatures a) as [|k ks IH]; intros sn Hnd; [constructor|].
  apply NoDup_cons in Hnd as [Hk Hnd].
  change (omap ?f (k :: ks)) with
    (match f k with Some y => y :: omap f ks | None => omap f ks end).
  cbv beta.
  destruct (featureMap !! k) as [fs|] eqn:Hfs; [|apply IH, Hnd].
  rewrite fmap_cons. apply NoDup_cons. split; [|apply IH, Hnd].
  intros Hin. apply list_elem_of_fmap in Hin as (df & Hname & Hdf).
  apply list_elem_of_omap in Hdf as (k' & Hk' & Hdf).
  cbv beta in Hdf.
  destruct (featureMap !! k') as [fs'|] eqn:Hfs'; [|discriminate Hdf].
  injection Hdf as <-. cbn [base] in Hname.
  rewrite (catalogue_name_determines_key _ _ _ _ Hfs Hfs' Hname) in Hk.
  contradiction.
Qed.

(** X1: a successful analysis lists every feature once: the recorded keys
    are pairwise distinct and so are the display names of the returned
    features. *)
Theorem features_listed_once parse code r :
  analyzeCode parse code = Resolved r ->
  exists a,
    detect parse code = inr a
    /\ NoDup (detectedFeatures a)
    /\ NoDup ((fun df : DetectedFeature => feature (base df)) <$> features r).
Proof.
  intros H. apply analyzeCode_resolved in H as (a & Hd & ->).
  exists a. split; [exact Hd|].
  pose proof (detected_keys_distinct_aux _ _ _ Hd) as Hnd.
  split; [exact Hnd|]. apply build_features_names_NoDup, Hnd.
Qed.

Lemma features_listed_once_witness :
  exists r,
    analyzeCode scenario_parse src_arr_at = Resolved r
    /\ exists a,
         detect scenario_parse src_arr_at = inr a
         /\ NoDup (detectedFeatures a)
         /\ NoDup ((fun df : DetectedFeature => feature (base df))
                     <$> features r).
Proof.
  eexists. split; [reflexivity|].
  apply (features_listed_once scenario_parse src_arr_at). reflexivity.
Defined.

(** ** The hashbang check *)

(** X6: the hashbang key is recorded exactly when the text starts with
    [#!]; no visitor records it, whatever the tree. *)
Theorem hashbang_iff_prefix parse code a :
  detect parse code = inr a ->
  "hashbang" ∈ detectedFeatures a <-> JS.startsWith code "#!" = true.
Proof.
  intros H. apply detect_inv in H as (ast & _ & ->).
  rewrite run_calls_detected_elem. unfold initial_calls. split.
  - intros [H|(c & Hc & Hk)]; [inversion H|].
    destruct (JS.startsWith code "#!"); [reflexivity|].
    cbn [app] in Hc.
    pose proof (tree_calls_Forall (fun c => visitor_key (call_key c) = true)
                  ast visit_key) as Hall.
    rewrite Forall_forall in Hall. apply Hall, visitor_key_spec in Hc.
    destruct Hc as [_ Hne]. contradiction.
  - intros ->. right. eexists. split; [apply list_elem_of_here|reflexivity].
Qed.

Lemma hashbang_iff_prefix_witness :
  exists a,
    detect scenario_parse src_bigint = inr a
    /\ ("hashbang" ∈ detectedFeatures a
        <-> JS.startsWith src_bigint "#!" = true).
Proof.
  eexists. split; [reflexivity|].
  apply (hashbang_iff_prefix scenario_parse src_bigint). reflexivity.
Defined.

(** ** The summary and the badges of the view *)

Lemma filter_length_le {A} (f : A -> bool) (l : list A) :
  (length (List.filter f l) <= length l)%nat.
Proof.
  induction l as [|x l IH]; [reflexivity|]. cbn [List.filter].
  destruct (f x); cbn [length]; lia.
Qed.

Lemma filter_length_split {A} (f : A -> bool) (l : list A) :
  (length (List.filter f l) + length (List.filter (fun x => negb (f x)) l)
   = length l)%nat.
Proof.
  induction l as [|x l IH]; [reflexivity|]. cbn [List.filter].
  destruct (f x); cbn [negb length]; lia.
Qed.

Lemma filter_length_mono {A} (f g : A -> bool) (l : list A) :
  (forall x, f x = true -> g x = true) ->
  (length (List.filter f l) <= length (List.filter g l))%nat.
Proof.
  intros Hfg. induction l as [|x l IH]; [reflexivity|]. cbn [List.filter].
  destruct (f x) eqn:Hf.
  - rewrite (Hfg x Hf). cbn [length]. lia.
  - destruct (g x); cbn [length]; lia.
Qed.

Lemma forallb_false_witness {A} (f : A -> bool) (l : list A) :
  forallb f l = false -> exists x, In x l /\ f x = false.
Proof.
  induction l as [|x l IH]; [discriminate|]. cbn [forallb].
  destruct (f x) eqn:Hx.
  - cbn [andb]. intros H. destruct (IH H) as (y & Hy & Hfy).
    exists y. split; [right; exact Hy|exact Hfy].
  - intros _. exists x. split; [left; reflexivity|exact Hx].
Qed.

(** X7: in every result the modern-only count lies between 0 and the
    total; when the legacy flag is false at least one feature is counted as
    modern-only; and the number the view shows as legacy compatible (total
    minus modern-only) is the number of features whose legacy-engine slot is
    neither [No] nor marked. *)
Theorem summary_is_consistent parse code r :
  analyzeCode parse code = Resolved r ->
  0 <= modernFeatures (summary r) <= totalFeatures (summary r)
  /\ (legacySupport (summary r) = false -> 1 <= modernFeatures (summary r))
  /\ View.legacyCompatibleCount r
     = Z.of_nat (length (List.filter (fun df => negb (is_modern df))
                                     (features r))).
Proof.
  intros H. apply analyzeCode_resolved in H as (a & _ & ->).
  unfold View.legacyCompatibleCount.
  cbn [summary features build_result totalFeatures modernFeatures legacySupport].
  set (fs := build_features a).
  pose proof (filter_length_le is_modern fs) as Hle.
  pose proof (filter_length_split is_modern fs) as Hsplit.
  split; [lia|]. split; [|lia].
  intros Hleg. apply forallb_false_witness in Hleg as (df & Hin & Hdf).
  assert (Hm : is_modern df = true).
  { unfold is_legacy_compatible in Hdf. apply negb_false_iff in Hdf.
    unfold is_modern. rewrite Hdf. reflexivity. }
  assert (Hmem : In df (List.filter is_modern fs))
    by (apply filter_In; split; assumption).
  destruct (List.filter is_modern fs); [destruct Hmem|cbn [length]; lia].
Qed.

Lemma summary_is_consistent_witness :
  exists r,
    analyzeCode scenario_parse src_async_arrow = Resolved r
    /\ 0 <= modernFeatures (summary r) <= totalFeatures (summary r)
    /\ (legacySupport (summary r) = false -> 1 <= modernFeatures (summary r))
    /\ View.legacyCompatibleCount r
       = Z.of_nat (length (List.filter (fun df => negb (is_modern df))
                                       (features r))).
Proof.
  eexists. split; [reflexivity|].
  apply (summary_is_consistent scenario_parse src_async_arrow). reflexivity.
Defined.

Lemma is_modern_hasIssues df : is_modern df = true -> View.hasIssues df = true.
Proof.
  unfold is_modern, View.hasIssues, View.support_values.
  intros H. apply orb_true_iff in H as [H|H]; rewrite ?H; [reflexivity|].
  apply orb_true_iff. right. cbn [existsb]. rewrite H.
  rewrite !orb_true_r. reflexivity.
Qed.

(** X8: every feature the analyzer counts as modern-only carries the
    warning badge in the view, so the view shows at least as many badges as
    the modern-only count of the summary. *)
Theorem modern_features_are_flagged parse code r :
  analyzeCode parse code = Resolved r ->
  (forall df : DetectedFeature,
     df ∈ features r -> modern_only df -> View.hasIssues df = true)
  /\ modernFeatures (summary r)
     <= Z.of_nat (length (List.filter View.hasIssues (features r))).
Proof.
  intros H. apply analyzeCode_resolved in H as (a & _ & ->). split.
  - intros df _ Hm. apply is_modern_hasIssues, is_modern_spec, Hm.
  - cbn [summary features build_result modernFeatures].
    pose proof (filter_length_mono is_modern View.hasIssues (build_features a)
                  is_modern_hasIssues).
    lia.
Qed.

Lemma modern_features_are_flagged_witness :
  exists r,
    analyzeCode scenario_parse src_async_arrow = Resolved r
    /\ (forall df : DetectedFeature,
          df ∈ features r -> modern_only df -> View.hasIssues df = true)
    /\ modernFeatures (summary r)
       <= Z.of_nat (length (List.filter View.hasIssues (features r))).
Proof.
  eexists. split; [reflexivity|].
  apply (modern_features_are_flagged scenario_parse src_async_arrow).
  reflexivity.
Defined.

(** ** The version matrix *)

Lemma has_marker_append s t :
  has_marker (s +:+ t) <-> has_marker s \/ has_marker t.
Proof.
  unfold has_marker. induction s as [|c s IH].
  - rewrite append_nil_l. cbn. split; [auto|].
    intros [H|H]; [inversion H|exact H].
  - rewrite append_cons. cbn [list_ascii_of_string].
    rewrite !elem_of_cons, IH. tauto.
Qed.

Lemma all_digits_no_marker s : all_digits s = true -> ~ has_marker s.
Proof.
  unfold has_marker. induction s as [|c s IH]; intros Hd Hm; [inversion Hm|].
  cbn [all_digits] in Hd. apply andb_true_iff in Hd as [Hc Hd].
  cbn [list_ascii_of_string] in Hm. apply elem_of_cons in Hm as [<-|Hm].
  - discriminate Hc.
  - exact (IH Hd Hm).
Qed.

Lemma toString_no_marker d :
  canonical d -> ~ has_marker (JS.toString (JS.Finite d) +:+ "+").
Proof.
  intros (Hip & Hfp & _ & _) Hm. unfold JS.toString in Hm.
  assert (Hplus : ~ has_marker "+")
    by (intros H; apply includes_marker in H; discriminate H).
  assert (Hdot : ~ has_marker ".")
    by (intros H; apply includes_marker in H; discriminate H).
  pose proof (all_digits_no_marker _ Hip). pose proof (all_digits_no_marker _ Hfp).
  destruct (String.eqb (JS.frac_part d) "");
    repeat (apply has_marker_append in Hm as [Hm|Hm]); contradiction.
Qed.

(** X9: a slot of the version matrix is either [No], which the view colours
    red, or a canonical number followed by [+] with no partial-support
    marker in it, which the view colours green; the yellow colour of a
    marked entry never occurs in the matrix. *)
Theorem matrix_slot_is_red_or_green (b : Browser) (dfs : list DetectedFeature) :
  let version := slot b (minimumVersions (build_result dfs)) in
  (version = "No"
   /\ View.getSupportColor version
      = "text-red-300 bg-red-600/20 border border-red-500/30")
  \/ ((exists m, canonical m /\ version = JS.toString (JS.Finite m) +:+ "+")
      /\ JS.includes version "*" = false
      /\ View.getSupportColor version
         = "text-green-300 bg-green-600/20 border border-green-500/30").
Proof.
  cbv zeta. cbn [minimumVersions build_result].
  pose proof (minimum_version_spec b (base <$> dfs)) as H.
  pose proof (slot_values_canonical b (base <$> dfs)) as Hcan.
  destruct (slot_values b (base <$> dfs)) as [|x l].
  - left. rewrite H. split; reflexivity.
  - right. destruct H as (m & Hin & _ & Hres & _).
    specialize (Hcan m Hin). rewrite Hres.
    assert (Hfree : JS.includes (JS.toString (JS.Finite m) +:+ "+") "*" = false).
    { destruct (JS.includes _ "*") eqn:Hi; [|reflexivity].
      apply includes_marker in Hi. destruct (toString_no_marker m Hcan Hi). }
    split; [eauto|]. split; [exact Hfree|].
    unfold View.getSupportColor. rewrite Hfree.
    destruct (String.eqb_spec (JS.toString (JS.Finite m) +:+ "+") "No") as [Heq|_];
      [|reflexivity].
    exfalso. pose proof (numeric_prefix_toString m Hcan) as Hp.
    rewrite Heq in Hp. discriminate Hp.
Qed.

Lemma slot_versions_app b fs1 fs2 :
  slot_versions b (fs1 ++ fs2) = slot_versions b fs1 ++ slot_versions b fs2.
Proof.
  unfold slot_versions.
  rewrite List.map_app, List.filter_app, List.map_app, List.filter_app.
  reflexivity.
Qed.

(** X10: a feature whose entry for a browser is [No] has no influence on
    that browser's slot of the matrix: wherever it stands in the list, the
    slot is what it would be without the feature. *)
Theorem unsupported_entry_is_ignored (b : Browser) fs1 (f : FeatureSupport) fs2 :
  slot b (support f) = "No" ->
  slot b (calculateMinimumVersions (fs1 ++ f :: fs2))
  = slot b (calculateMinimumVersions (fs1 ++ fs2)).
Proof.
  intros Hno. rewrite !slot_calculateMinimumVersions. unfold minimum_version.
  rewrite !slot_versions_app.
  change (f :: fs2) with ([f] ++ fs2). rewrite slot_versions_app.
  assert (Hf : slot_versions b [f] = []).
  { unfold slot_versions. cbn [List.map List.filter]. rewrite Hno. reflexivity. }
  rewrite Hf. reflexivity.
Qed.

Lemma unsupported_entry_is_ignored_witness :
  slot IE (calculateMinimumVersions
             ([mkFS "Const Declaration" "" (mkSupport "49+" "36+" "10+" "12+" "11*") None]
              ++ mkFS "Arrow Functions" "" (mkSupport "45+" "22+" "10+" "12+" "No") None
                 :: []))
  = slot IE (calculateMinimumVersions
               ([mkFS "Const Declaration" "" (mkSupport "49+" "36+" "10+" "12+" "11*") None]
                ++ [])).
Proof. apply unsupported_entry_is_ignored. reflexivity. Defined.

(** X11: adding a feature never lowers a slot of the matrix: if the slot is
    a number for a list of features, it is a number at least as large
    once a feature is added. *)
Theorem matrix_grows_with_features (b : Browser) (f : FeatureSupport) fs m :
  numeric_prefix (slot b (calculateMinimumVersions fs)) = JS.Finite m ->
  exists m',
    numeric_prefix (slot b (calculateMinimumVersions (f :: fs))) = JS.Finite m'
    /\ (JS.value m <= JS.value m')%Q.
Proof.
  intros Hm.
  pose proof (minimum_version_spec b fs) as H.
  pose proof (minimum_version_spec b (f :: fs)) as H'.
  pose proof (slot_values_elem b fs) as Hel.
  pose proof (slot_values_elem b (f :: fs)) as Hel'.
  destruct (slot_values b fs) as [|x l].
  - rewrite H in Hm. discriminate Hm.
  - destruct H as (m0 & Hin & _ & _ & Hpre & _).
    rewrite Hpre in Hm. injection Hm as <-.
    apply Hel in Hin as (f0 & Hf0 & Hd0).
    destruct (slot_values b (f :: fs)) as [|x' l'].
    + assert (Hbad : m0 ∈ @nil JS.decimal).
      { apply Hel'. exists f0. split; [apply list_elem_of_further, Hf0|exact Hd0]. }
      inversion Hbad.
    + destruct H' as (m' & _ & _ & _ & Hpre' & Hall).
      exists m'. split; [exact Hpre'|].
      apply (Hall f0); [apply list_elem_of_further, Hf0|exact Hd0].
Qed.

Lemma matrix_grows_with_features_witness :
  exists m',
    numeric_prefix
      (slot Safari
         (calculateMinimumVersions
            [mkFS "B" "" (mkSupport "1+" "1+" "15.4+" "1+" "No") None;
             mkFS "A" "" (mkSupport "1+" "1+" "10+" "1+" "No") None]))
    = JS.Finite m'
    /\ (JS.value (JS.mkDecimal "10" "") <= JS.value m')%Q.
Proof.
  apply (matrix_grows_with_features Safari
           (mkFS "B" "" (mkSupport "1+" "1+" "15.4+" "1+" "No") None)
           [mkFS "A" "" (mkSupport "1+" "1+" "10+" "1+" "No") None]).
  reflexivity.
Defined.

(** ** The rules for awaits and for ambiguous method names *)

(** X12: on an [AwaitExpression] node the top-level-await key is submitted
    exactly when, among the scopes from the parent of the await's own scope
    outwards, no function boundary comes before the first program scope; the
    await's own scope is not looked at. *)
Theorem top_level_await_rule n scope :
  ntype n = "AwaitExpression" ->
  add "top-level-await" n ∈ visit n scope
  <-> forall i block,
        tail scope !! i = Some block ->
        JS.array_includes function_boundaries block = true ->
        exists j, (j < i)%nat /\ tail scope !! j = Some "Program".
Proof.
  intros Hty. rewrite <- isTopLevel_from_spec.
  unfold visit. rewrite Hty.
  change (assoc "AwaitExpression" visitors) with (Some visit_AwaitExpression).
  unfold visit_AwaitExpression.
  destruct (isTopLevel_from (tail scope)); cbn [when app].
  - split; [reflexivity|]. intros _. apply list_elem_of_further, list_elem_of_here.
  - split; [|discriminate]. intros H.
    apply list_elem_of_singleton in H. discriminate H.
Qed.

Lemma top_level_await_rule_witness :
  add "top-level-await" (leaf "AwaitExpression" 21 30)
    ∈ visit (leaf "AwaitExpression" 21 30) ["FunctionDeclaration"; "Program"]
  <-> forall i block,
        tail ["FunctionDeclaration"; "Program"] !! i = Some block ->
        JS.array_includes function_boundaries block = true ->
        exists j, (j < i)%nat
                  /\ tail ["FunctionDeclaration"; "Program"] !! j = Some "Program".
Proof. apply top_level_await_rule. reflexivity. Defined.

(** X13: a call through a member expression whose property is the
    identifier [at], [includes] or [with] is reported under every receiver
    type that has such a method, whatever the receiver expression is. *)
Theorem ambiguous_methods_over_reported n scope callee property name keys k :
  ntype n = "CallExpression" ->
  child n "callee" = Some callee ->
  ntype callee = "MemberExpression" ->
  child callee "property" = Some property ->
  ntype property = "Identifier" ->
  sfield property "name" = Some name ->
  (name, keys) ∈ ambiguous_methods ->
  k ∈ keys ->
  add k n ∈ visit n scope.
Proof.
  intros Hn Hcallee Hmem Hprop Hid Hname Hrow Hk.
  unfold visit. rewrite Hn.
  change (assoc "CallExpression" visitors) with (Some visit_CallExpression).
  unfold visit_CallExpression. cbv zeta. rewrite Hcallee.
  unfold Babel.isOpt, Babel.isType. rewrite Hmem.
  change (String.eqb "MemberExpression" "Identifier") with false.
  change (String.eqb "MemberExpression" "MemberExpression") with true.
  cbn [when app mbind option_bind]. rewrite Hprop, Hid.
  change (String.eqb "Identifier" "Identifier") with true. cbn [when].
  unfold name_of. cbn [mbind option_bind]. rewrite Hname. cbn [default].
  unfold ambiguous_methods in Hrow.
  repeat (apply elem_of_cons in Hrow as [Hrow|Hrow];
          [injection Hrow as -> ->|]); [..|inversion Hrow];
    repeat (apply elem_of_cons in Hk as [->|Hk]); try (inversion Hk; fail);
    rewrite !elem_of_app;
    first [ left; apply list_elem_of_In; vm_compute;
            solve [repeat (first [left; reflexivity | right])]
          | right; right; apply list_elem_of_In; vm_compute;
            solve [repeat (first [left; reflexivity | right])] ].
Qed.

Lemma ambiguous_methods_over_reported_witness :
  add "typedarray-at" call_arr_at ∈ visit call_arr_at ["Program"].
Proof.
  eapply (ambiguous_methods_over_reported _ _ _ _ "at");
    try reflexivity.
  - apply list_elem_of_here.
  - do 2 apply list_elem_of_further. apply list_elem_of_here.
Defined.

(** ** The page *)

Lemma trim_start_empty s : JS.trim_start s = "" <-> blank s.
Proof.
  unfold blank. induction s as [|c s IH]; cbn [JS.trim_start list_ascii_of_string].
  - split; [constructor|reflexivity].
  - destruct (JS.is_whitespace c) eqn:Hc.
    + rewrite IH. split; [intros H; constructor; assumption|].
      intros H. apply Forall_cons in H as [_ H]. exact H.
    + split; [discriminate|]. intros H.
      apply Forall_cons in H as [H _]. congruence.
Qed.

Lemma trim_end_nonempty c s :
  JS.is_whitespace c = false -> JS.trim_end (String c s) <> "".
Proof. intros Hc. cbn [JS.trim_end]. rewrite Hc. discriminate. Qed.

Lemma trim_start_head s c r :
  JS.trim_start s = String c r -> JS.is_whitespace c = false.
Proof.
  induction s as [|c' s IH]; cbn [JS.trim_start]; [discriminate|].
  destruct (JS.is_whitespace c') eqn:Hc'; [exact IH|].
  intros [= -> ->]. exact Hc'.
Qed.

(** [trim] leaves nothing exactly of the texts made of white space. *)
Lemma trim_empty s : JS.trim s = "" <-> blank s.
Proof.
  rewrite <- trim_start_empty. unfold JS.trim.
  destruct (JS.trim_start s) as [|c r] eqn:Hs; [split; reflexivity|].
  split; [|discriminate]. intros H.
  destruct (trim_end_nonempty c r (trim_start_head _ _ _ Hs) H).
Qed.

(** X14: on a text of white space only (as after [handleClear]) the handler
    sets the prompt message and changes nothing else; the parser is not
    consulted, so the outcome is the same whatever the parser would do. *)
Theorem handleAnalyze_on_blank parse (st : Page.State) :
  blank (Page.code st) ->
  Page.handleAnalyze parse st
  = Page.mkState (Page.code st) (Page.analysis st) (Page.loading st)
      (Some "Please enter some JavaScript code to analyze")
  /\ Page.handleAnalyze parse (Page.handleClear st)
     = Page.mkState "" None (Page.loading st)
         (Some "Please enter some JavaScript code to analyze").
Proof.
  intros Hb. unfold Page.handleAnalyze. split.
  - apply trim_empty in Hb. rewrite Hb. reflexivity.
  - reflexivity.
Qed.

Lemma handleAnalyze_on_blank_witness :
  Page.handleAnalyze scenario_parse (Page.mkState "  " None false None)
  = Page.mkState "  " None false
      (Some "Please enter some JavaScript code to analyze")
  /\ Page.handleAnalyze scenario_parse
       (Page.handleClear (Page.mkState "  " None false None))
     = Page.mkState "" None false
         (Some "Please enter some JavaScript code to analyze").
Proof.
  apply (handleAnalyze_on_blank scenario_parse
           (Page.mkState "  " None false None)).
  repeat constructor.
Defined.

(** X15: on a text that is not blank the handler ends with [loading] false
    and the text untouched, and either the analysis succeeded, the new
    result is stored and the error cleared, or the parser threw, the error
    is the wrapped parser message and the result of the previous analysis
    stays in place. *)
Theorem handleAnalyze_on_code parse (st : Page.State) :
  ~ blank (Page.code st) ->
  let st' := Page.handleAnalyze parse st in
  Page.loading st' = false
  /\ Page.code st' = Page.code st
  /\ ((exists r,
         analyzeCode parse (Page.code st) = Resolved r
         /\ Page.analysis st' = Some r /\ Page.error st' = None)
      \/ (exists e,
            parse (Page.code st) = ParseThrows e
            /\ Page.analysis st' = Page.analysis st
            /\ Page.error st'
               = Some ("Failed to parse JavaScript code: "
                       +:+ match e with
                           | ThrownError message => message
                           | ThrownOther => "Unknown error"
                           end))).
Proof.
  intros Hnb. cbv zeta. unfold Page.handleAnalyze.
  destruct (String.eqb_spec (JS.trim (Page.code st)) "") as [He|_];
    [apply trim_empty in He; contradiction|].
  unfold analyzeCode, detect.
  destruct (parse (Page.code st)) as [ast|e]; cbn.
  - split; [reflexivity|]. split; [reflexivity|]. left. eauto.
  - split; [reflexivity|]. split; [reflexivity|]. right. eauto.
Qed.

Lemma handleAnalyze_on_code_witness :
  let st := Page.mkState "{" None false None in
  let st' := Page.handleAnalyze scenario_parse st in
  Page.loading st' = false
  /\ Page.code st' = Page.code st
  /\ ((exists r,
         analyzeCode scenario_parse (Page.code st) = Resolved r
         /\ Page.analysis st' = Some r /\ Page.error st' = None)
      \/ (exists e,
            scenario_parse (Page.code st) = ParseThrows e
            /\ Page.analysis st' = Page.analysis st
            /\ Page.error st'
               = Some ("Failed to parse JavaScript code: "
                       +:+ match e with
                           | ThrownError message => message
                           | ThrownOther => "Unknown error"
                           end))).
Proof.
  apply (handleAnalyze_on_code scenario_parse
           (Page.mkState "{" None false None)).
  intros H. apply Forall_cons in H as [H _]. discriminate H.
Defined.

(** ** The extractor outside the text *)

Lemma line_offset_cons l rest k :
  line_offset (l :: rest) (S k) = JS.len l + 1 + line_offset rest k.
Proof. reflexivity. Qed.

Lemma scan_lines_past ls start end_ :
  start <= end_ ->
  forall i st,
    sc_startLine st = 0 ->
    sc_endLine st = 0 ->
    currentPos st + line_offset ls (length ls) <= start ->
    let st' := scan_lines ls i start end_ st in
    sc_startLine st' = 0 /\ sc_endLine st' = 0
    /\ sc_startCol st' = sc_startCol st.
Proof.
  intros Hse. induction ls as [|l rest IH]; intros i st Hs He Hpos.
  - cbn. auto.
  - cbn [length] in Hpos. rewrite line_offset_cons in Hpos.
    pose proof (line_offset_nonneg rest (length rest)) as Hnn.
    cbn [scan_lines]. cbv zeta.
    destruct (Z.gtb_spec (currentPos st + (JS.len l + 1)) start) as [Hgt|_];
      [lia|].
    cbn [andb].
    destruct (Z.gtb_spec (currentPos st + (JS.len l + 1)) end_) as [Hgt|_];
      [lia|].
    cbn [andb].
    destruct (IH (i + 1)
                (mkScan (currentPos st + (JS.len l + 1)) (sc_startLine st)
                        (sc_endLine st) (sc_startCol st)))
      as (H1 & H2 & H3); cbn [currentPos sc_startLine sc_endLine sc_startCol];
      try assumption; [lia|].
    cbn [sc_startCol] in H3. auto.
Qed.

Lemma substring_zero_length n s : String.substring n 0 s = "".
Proof.
  revert n. induction s as [|c s IH]; intros [|n]; cbn; try reflexivity.
  apply IH.
Qed.

(** X16: for a range that starts beyond the end of the text the extractor
    does not fail: it returns match line 0, column 0, an empty match text,
    and as context the first two lines of the document, numbered from 1. *)
Theorem extractSnippet_beyond_text code start end_ :
  JS.len code < start ->
  start <= end_ ->
  let ev := extractSnippet code start end_ in
  matchLine ev = 0
  /\ matchCol ev = 0
  /\ matchText ev = ""
  /\ matchLength ev = end_ - start
  /\ startLine ev = 1
  /\ text ev = JS.join_nl (take 2 (JS.split_nl code)).
Proof.
  intros Hlen Hse. cbv zeta. unfold extractSnippet.
  set (lines := JS.split_nl code).
  pose proof (line_offset_all code) as Htot. fold lines in Htot.
  destruct (scan_lines_past lines start end_ Hse 0 (mkScan 0 0 0 0)
              eq_refl eq_refl ltac:(cbn [currentPos]; lia)) as (HL & HE & HC).
  cbn [sc_startCol] in HC.
  cbn [text startLine matchLine matchCol matchLength matchText].
  rewrite HL, HE, HC.
  repeat split.
  - unfold JS.string_slice, JS.rel_index.
    assert (0 <= JS.len code) by (unfold JS.len; lia).
    destruct (Z.ltb_spec start 0); [lia|].
    destruct (Z.ltb_spec end_ 0); [lia|].
    replace (Z.min end_ (JS.len code) - Z.min start (JS.len code)) with 0 by lia.
    apply substring_zero_length.
  - f_equal. unfold JS.array_slice, JS.rel_index. cbn [Z.max Z.sub Z.add].
    change (Z.max 0 (0 - 3)) with 0. change (0 + 2) with 2.
    destruct (Z.ltb_spec 0 0); [lia|].
    destruct (Z.ltb_spec (Z.min (Z.of_nat (length lines)) 2) 0); [lia|].
    replace (Z.to_nat (Z.min 0 (Z.of_nat (length lines)))) with 0%nat by lia.
    rewrite drop_0.
    destruct (Z.le_ge_cases 2 (Z.of_nat (length lines))) as [Hge|Hlt].
    + f_equal. lia.
    + replace (Z.to_nat _) with (length lines) by lia.
      rewrite firstn_all. symmetry. apply take_ge. lia.
Qed.

Lemma extractSnippet_beyond_text_witness :
  let ev := extractSnippet "a" 5 5 in
  matchLine ev = 0
  /\ matchCol ev = 0
  /\ matchText ev = ""
  /\ matchLength ev = 5 - 5
  /\ startLine ev = 1
  /\ text ev = JS.join_nl (take 2 (JS.split_nl "a")).
Proof. apply (extractSnippet_beyond_text "a" 5 5); unfold JS.len; simpl; lia. Defined.

(** ** Lines and substrings *)

Lemma split_nl_one_line l : one_line l = true -> JS.split_nl l = [l].
Proof.
  induction l as [|c l IH]; [reflexivity|]. cbn [one_line JS.split_nl].
  intros H. apply andb_true_iff in H as [Hc Hl]. apply negb_true_iff in Hc.
  rewrite Hc, (IH Hl). reflexivity.
Qed.

Lemma split_nl_app_line l rest :
  one_line l = true ->
  JS.split_nl (l +:+ String JS.newline rest) = l :: JS.split_nl rest.
Proof.
  induction l as [|c l IH]; intros H.
  - rewrite append_nil_l. cbn [JS.split_nl]. rewrite Ascii.eqb_refl. reflexivity.
  - cbn [one_line] in H. apply andb_true_iff in H as [Hc Hl].
    apply negb_true_iff in Hc.
    rewrite append_cons. cbn [JS.split_nl]. rewrite Hc, (IH Hl). reflexivity.
Qed.

Lemma join_nl_cons l l' ls :
  JS.join_nl (l :: l' :: ls)
  = l +:+ String JS.newline (JS.join_nl (l' :: ls)).
Proof. reflexivity. Qed.

(** Splitting what was joined gives the lines back. *)
Lemma split_join ls :
  ls <> [] -> Forall (fun l => one_line l = true) ls ->
  JS.split_nl (JS.join_nl ls) = ls.
Proof.
  induction ls as [|l ls IH]; intros Hne Hall; [contradiction|].
  apply Forall_cons in Hall as [Hl Hall]. destruct ls as [|l' ls].
  - apply split_nl_one_line, Hl.
  - rewrite join_nl_cons, split_nl_app_line by exact Hl.
    f_equal. apply IH; [discriminate|exact Hall].
Qed.

Lemma split_nl_nonempty s : JS.split_nl s <> [].
Proof.
  destruct s as [|c s]; cbn [JS.split_nl]; [discriminate|].
  destruct (Ascii.eqb c JS.newline); [discriminate|].
  destruct (JS.split_nl s); discriminate.
Qed.

Lemma split_nl_one_lines s : Forall (fun l => one_line l = true) (JS.split_nl s).
Proof.
  induction s as [|c s IH]; cbn [JS.split_nl]; [repeat constructor|].
  destruct (Ascii.eqb c JS.newline) eqn:Hc; [constructor; [reflexivity|exact IH]|].
  destruct (JS.split_nl s) as [|l ls]; [repeat constructor; cbn; rewrite Hc; reflexivity|].
  apply Forall_cons in IH as [Hl Hls]. constructor; [|exact Hls].
  cbn [one_line]. rewrite Hc, Hl. reflexivity.
Qed.

(** Joining what was split gives the text back. *)
Lemma join_split s : JS.join_nl (JS.split_nl s) = s.
Proof.
  induction s as [|c s IH]; [reflexivity|]. cbn [JS.split_nl].
  pose proof (split_nl_nonempty s) as Hne.
  destruct (Ascii.eqb_spec c JS.newline) as [->|Hc].
  - destruct (JS.split_nl s) as [|l ls]; [contradiction|].
    rewrite join_nl_cons, append_nil_l, IH. reflexivity.
  - destruct (JS.split_nl s) as [|l ls]; [contradiction|].
    destruct ls as [|l' ls].
    + cbn in IH. cbn. rewrite IH. reflexivity.
    + rewrite join_nl_cons in *. rewrite append_cons, IH. reflexivity.
Qed.

Lemma substring_empty n m : String.substring n m "" = "".
Proof. destruct n, m; reflexivity. Qed.

Lemma substring_app_l c m l t :
  (c + m <= String.length l)%nat ->
  String.substring c m (l +:+ t) = String.substring c m l.
Proof.
  revert c m. induction l as [|a l IH]; intros c m H.
  - cbn [String.length] in H. assert (c = 0%nat /\ m = 0%nat) as [-> ->] by lia.
    rewrite substring_empty. apply substring_zero_length.
  - rewrite append_cons. cbn [String.length] in H. destruct c as [|c].
    + destruct m as [|m]; [reflexivity|]. cbn [String.substring].
      f_equal. apply IH. lia.
    + cbn [String.substring]. apply IH. lia.
Qed.

Lemma substring_skip x n m y :
  String.substring (String.length x + n) m (x +:+ y) = String.substring n m y.
Proof.
  induction x as [|a x IH]; [reflexivity|].
  rewrite append_cons. cbn [String.length Nat.add String.substring]. exact IH.
Qed.

Lemma substring_cat s :
  forall a m k,
    String.substring a m s +:+ String.substring (a + m) k s
    = String.substring a (m + k) s.
Proof.
  induction s as [|c s IH]; intros a m k.
  - rewrite !substring_empty. reflexivity.
  - destruct a as [|a].
    + destruct m as [|m]; [reflexivity|].
      cbn [Nat.add String.substring]. rewrite append_cons. f_equal.
      apply (IH 0%nat m k).
    + cbn [Nat.add String.substring]. apply IH.
Qed.

Lemma substring_all s : String.substring 0 (String.length s) s = s.
Proof.
  induction s as [|c s IH]; [reflexivity|].
  cbn [String.length String.substring]. rewrite IH. reflexivity.
Qed.

(** The characters of a line sit in the joined text at the offset of the
    line. *)
Lemma substring_join lines :
  forall k l c m,
    lines !! k = Some l ->
    (c + m <= String.length l)%nat ->
    String.substring (Z.to_nat (line_offset lines k) + c) m (JS.join_nl lines)
    = String.substring c m l.
Proof.
  induction lines as [|x lines IH]; intros k l c m Hk Hcm; [discriminate|].
  destruct k as [|k].
  - injection Hk as ->. rewrite line_offset_0. cbn [Z.to_nat Nat.add].
    destruct lines as [|x' lines]; [reflexivity|].
    rewrite join_nl_cons. apply substring_app_l, Hcm.
  - cbn [lookup list_lookup] in Hk. destruct lines as [|x' lines];
      [discriminate|].
    rewrite join_nl_cons, line_offset_cons.
    pose proof (line_offset_nonneg (x' :: lines) k) as Hnn.
    replace (Z.to_nat (JS.len x + 1 + line_offset (x' :: lines) k) + c)%nat
      with (String.length x + S (Z.to_nat (line_offset (x' :: lines) k) + c))%nat
      by (unfold JS.len; lia).
    rewrite substring_skip. cbn [String.substring]. apply IH; assumption.
Qed.

(** ** From a snippet to its rendering *)

Lemma line_offset_S lines k l :
  lines !! k = Some l ->
  line_offset lines (S k) = line_offset lines k + JS.len l + 1.
Proof.
  intros Hk. pose proof (take_drop_middle lines k l Hk) as Hmid.
  assert (Hlen : length (take k lines) = k)
    by (apply length_take_le, Nat.lt_le_incl, (lookup_lt_Some _ _ _ Hk)).
  pose proof (line_offset_app_S (take k lines) l (drop (S k) lines)) as H.
  rewrite Hmid, Hlen in H. exact H.
Qed.

Lemma snippet_spec_in_range code start end_ :
  0 <= start <= end_ ->
  end_ <= JS.len code ->
  snippet_spec code start end_ (extractSnippet code start end_).
Proof.
  intros Hse Hlen.
  unfold snippet_spec, extractSnippet.
  set (lines := JS.split_nl code).
  pose proof (line_offset_all code) as Htot. fold lines in Htot.
  destruct (scan_lines_spec lines start end_ Hse ltac:(lia) lines []
              (mkScan 0 0 0 0) eq_refl eq_refl eq_refl ltac:(simpl; lia)
              ltac:(left; simpl; lia)) as (HL & HE & Hcol).
  change (Z.of_nat (@length string [])) with 0 in HL, HE, Hcol.
  set (st := scan_lines lines 0 start end_ (mkScan 0 0 0 0)) in *.
  exists (sc_startLine st), (sc_endLine st).
  cbn [text startLine matchLine matchCol matchLength matchText].
  destruct HL as (HLr & HLlt & HL), HE as (HEr & HElt & HE).
  repeat split; try assumption; try lia.
  - f_equal. unfold JS.array_slice, lines_between, JS.rel_index.
    destruct (Z.ltb_spec (Z.max 0 (sc_startLine st - 3)) 0); [lia|].
    destruct (Z.ltb_spec (Z.min (Z.of_nat (length lines)) (sc_endLine st + 2)) 0);
      [lia|].
    f_equal; try f_equal; lia.
  - unfold JS.string_slice, JS.rel_index.
    destruct (Z.ltb_spec start 0); [lia|].
    destruct (Z.ltb_spec end_ 0); [lia|].
    f_equal; lia.
Qed.

(** X17: for a range inside the text whose match ends on the line where it
    starts, the view renders the match line at its place among the context
    lines, cut into three parts of which the highlighted one is the match
    text, and the three parts together are the whole line of the document. *)
Theorem highlight_is_the_match code start end_ line :
  0 <= start <= end_ ->
  end_ <= JS.len code ->
  let ev := extractSnippet code start end_ in
  JS.split_nl code !! Z.to_nat (matchLine ev - 1) = Some line ->
  matchCol ev + matchLength ev <= JS.len line ->
  exists before after,
    View.render_snippet ev !! Z.to_nat (matchLine ev - startLine ev)
    = Some (View.MatchLine (matchLine ev) before (matchText ev) after)
    /\ before +:+ matchText ev +:+ after = line.
Proof.
  intros Hse Hlen. cbv zeta.
  destruct (snippet_spec_in_range code start end_ Hse Hlen)
    as (L & E & (HLr & HLlt & HL) & (HEr & HElt & HE)
        & HmL & HmC & HsL & Htext & HmT & HmLen).
  set (ev := extractSnippet code start end_) in *.
  set (lines := JS.split_nl code) in *.
  rewrite HmL, HmC, HmLen, HsL. intros Hline Hfit.
  (* the arithmetic of the match line *)
  assert (HLE : L <= E).
  { destruct (Z.le_gt_cases L E) as [H|H]; [exact H|].
    specialize (HL E ltac:(lia)). lia. }
  assert (HoffS : line_offset lines (Z.to_nat L)
                  = line_offset lines (Z.to_nat (L - 1)) + JS.len line + 1).
  { replace (Z.to_nat L) with (S (Z.to_nat (L - 1))) by lia.
    apply line_offset_S, Hline. }
  assert (Hoff : line_offset lines (Z.to_nat (L - 1)) <= start).
  { destruct (Z.eq_dec L 1) as [->|Hne].
    - change (Z.to_nat (1 - 1)) with 0%nat. rewrite line_offset_0. lia.
    - apply (HL (L - 1)). lia. }
  pose proof (line_offset_nonneg lines (Z.to_nat (L - 1))) as Hnn.
  set (col := start - line_offset lines (Z.to_nat (L - 1))) in *.
  set (mlen := end_ - start) in *.
  assert (Hcol : 0 <= col) by (unfold col; lia).
  assert (Hmlen : 0 <= mlen) by (unfold mlen; lia).
  (* the context lines *)
  set (a := Z.max 1 (L - 2)) in *.
  set (b := Z.min (Z.of_nat (length lines)) (E + 2)) in *.
  set (ctx := lines_between lines a b) in *.
  assert (Hctx : ctx !! Z.to_nat (L - a) = Some line).
  { unfold ctx, lines_between.
    rewrite lookup_take_lt by (unfold a, b; lia).
    rewrite lookup_drop.
    replace (Z.to_nat (a - 1) + Z.to_nat (L - a))%nat with (Z.to_nat (L - 1))
      by (unfold a; lia).
    exact Hline. }
  assert (Hsplit : JS.split_nl (text ev) = ctx).
  { rewrite Htext. apply split_join.
    - intros Hnil. rewrite Hnil in Hctx. discriminate Hctx.
    - apply Forall_take, Forall_drop, split_nl_one_lines. }
  unfold View.render_snippet. rewrite Hsplit, list_lookup_imap, Hctx.
  cbn [fmap option_fmap option_map]. cbv zeta.
  rewrite HsL, HmL, HmC, HmLen.
  replace (a + Z.of_nat (Z.to_nat (L - a))) with L by (unfold a; lia).
  rewrite Z.eqb_refl.
  eexists _, _. split; [f_equal; f_equal|].
  - (* the highlighted part is the match text *)
    rewrite HmT. unfold JS.substring.
    assert (0 <= JS.len line) by (unfold JS.len; lia).
    replace (Z.max 0 (Z.min col (JS.len line))) with col by lia.
    replace (Z.max 0 (Z.min (col + mlen) (JS.len line))) with (col + mlen) by lia.
    replace (Z.min col (col + mlen)) with col by lia.
    replace (Z.max col (col + mlen) - col) with mlen by lia.
    rewrite <- (join_split code) at 1. fold lines.
    replace (Z.to_nat start)
      with (Z.to_nat (line_offset lines (Z.to_nat (L - 1))) + Z.to_nat col)%nat
      by (unfold col; lia).
    fold mlen. symmetry. apply substring_join; [exact Hline|].
    unfold JS.len in Hfit. lia.
  - (* the three parts make up the line *)
    rewrite HmT. unfold JS.substring_from, JS.substring.
    assert (Hl0 : 0 <= JS.len line) by (unfold JS.len; lia).
    replace (Z.max 0 (Z.min 0 (JS.len line))) with 0 by lia.
    replace (Z.max 0 (Z.min col (JS.len line))) with col by lia.
    replace (Z.max 0 (Z.min (col + mlen) (JS.len line))) with (col + mlen) by lia.
    replace (Z.max 0 (Z.min (JS.len line) (JS.len line))) with (JS.len line) by lia.
    replace (Z.min 0 col) with 0 by lia.
    replace (Z.max 0 col - 0) with col by lia.
    replace (Z.min (col + mlen) (JS.len line)) with (col + mlen) by lia.
    replace (Z.max (col + mlen) (JS.len line) - (col + mlen))
      with (JS.len line - (col + mlen)) by lia.
    assert (Hmt : String.substring (Z.to_nat start) (Z.to_nat mlen) code
                  = String.substring (Z.to_nat col) (Z.to_nat mlen) line).
    { rewrite <- (join_split code) at 1. fold lines.
      replace (Z.to_nat start)
        with (Z.to_nat (line_offset lines (Z.to_nat (L - 1))) + Z.to_nat col)%nat
        by (unfold col; lia).
      apply substring_join; [exact Hline|].
      unfold JS.len in Hfit. lia. }
    rewrite Hmt.
    replace (Z.to_nat (col + mlen)) with (Z.to_nat col + Z.to_nat mlen)%nat by lia.
    rewrite substring_cat.
    change (Z.to_nat 0) with 0%nat.
    replace (Z.to_nat col) with (0 + Z.to_nat col)%nat at 2 by lia.
    rewrite substring_cat.
    replace (Z.to_nat col + (Z.to_nat mlen + Z.to_nat (JS.len line - (col + mlen))))%nat
      with (String.length line) by (unfold JS.len in *; lia).
    apply substring_all.
Qed.

Lemma highlight_is_the_match_witness :
  let code := JS.join_nl ["l1"; "const x = 1;"; "l3"] in
  let ev := extractSnippet code 3 8 in
  exists before after,
    View.render_snippet ev !! Z.to_nat (matchLine ev - startLine ev)
    = Some (View.MatchLine (matchLine ev) before (matchText ev) after)
    /\ before +:+ matchText ev +:+ after = "const x = 1;".
Proof.
  apply (highlight_is_the_match (JS.join_nl ["l1"; "const x = 1;"; "l3"]) 3 8
           "const x = 1;").
  - lia.
  - unfold JS.len. simpl. lia.
  - reflexivity.
  - apply Z.leb_le. vm_compute. reflexivity.
Defined.

(** ** The evidence of the hashbang *)

Lemma prefix_hashbang code :
  JS.startsWith code "#!" = true ->
  exists rest, code = String "#" (String "!" rest).
Proof.
  unfold JS.startsWith. destruct code as [|c1 [|c2 rest]]; cbn [String.prefix].
  - discriminate.
  - destruct (ascii_dec "#" c1); discriminate.
  - destruct (ascii_dec "#" c1) as [<-|]; [|discriminate].
    destruct (ascii_dec "!" c2) as [<-|]; [|discriminate]. eauto.
Qed.

Lemma extractSnippet_hashbang code :
  JS.startsWith code "#!" = true ->
  let ev := extractSnippet code 0 2 in
  matchText ev = "#!" /\ matchLine ev = 1 /\ matchCol ev = 0 /\ startLine ev = 1.
Proof.
  intros H. apply prefix_hashbang in H as (rest & ->). cbv zeta.
  set (code := String "#" (String "!" rest)).
  assert (Hlen : 2 <= JS.len code)
    by (unfold JS.len, code; cbn [String.length]; lia).
  destruct (snippet_spec_in_range code 0 2 ltac:(lia) Hlen)
    as (L & E & (HLr & _ & HL) & _ & HmL & HmC & HsL & _ & HmT & _).
  pose proof (split_nl_nonempty code) as Hne.
  assert (HL1 : L = 1).
  { destruct (Z.eq_dec L 1) as [->|Hn]; [reflexivity|]. exfalso.
    specialize (HL 1 ltac:(lia)). change (Z.to_nat 1) with 1%nat in HL.
    destruct (JS.split_nl code) as [|l0 ls] eqn:Hs; [contradiction|].
    rewrite (line_offset_S (l0 :: ls) 0 l0 eq_refl), line_offset_0 in HL.
    unfold JS.len in HL. lia. }
  rewrite HmT, HmL, HmC, HsL, HL1.
  change (Z.to_nat (1 - 1)) with 0%nat. rewrite line_offset_0.
  repeat split. unfold code.
  change (Z.to_nat 0) with 0%nat. change (Z.to_nat (2 - 0)) with 2%nat.
  cbn [String.substring]. rewrite substring_zero_length. reflexivity.
Qed.

Lemma submissions_none k cs :
  Forall (fun c => call_key c <> k) cs -> submissions k cs = [].
Proof.
  induction 1 as [|c cs Hc _ IH]; [reflexivity|].
  rewrite submissions_cons, IH, app_nil_r.
  destruct c as [k' [s|] [e|]|k']; try reflexivity.
  cbn in Hc |- *. destruct (String.eqb_spec k' k); [contradiction|reflexivity].
Qed.

(** X18: when the text starts with [#!] and parses, the hashbang feature is
    the first feature of the result and has exactly one snippet, the one of
    the range from 0 to 2: match text [#!] on line 1, column 0, with the
    context numbered from line 1. *)
Theorem hashbang_is_first_feature parse code ast :
  JS.startsWith code "#!" = true ->
  parse code = Parsed ast ->
  exists r df rest,
    analyzeCode parse code = Resolved r
    /\ features r = df :: rest
    /\ featureMap !! "hashbang" = Some (base df)
    /\ codeSnippets df = [extractSnippet code 0 2]
    /\ matchText (extractSnippet code 0 2) = "#!"
    /\ matchLine (extractSnippet code 0 2) = 1
    /\ matchCol (extractSnippet code 0 2) = 0
    /\ startLine (extractSnippet code 0 2) = 1.
Proof.
  intros Hh Hp. unfold analyzeCode. rewrite (detect_calls _ _ _ Hp).
  set (a := run_calls code (initial_calls code ++ tree_calls ast) empty_acc).
  assert (Hinit : initial_calls code
                  = [CallAddFeature "hashbang" (Some 0) (Some 2)])
    by (unfold initial_calls; rewrite Hh; reflexivity).
  (* the key is the first one *)
  assert (Hkeys : exists ks, detectedFeatures a = "hashbang" :: ks).
  { unfold a. rewrite Hinit. cbn [app]. rewrite run_calls_cons.
    destruct (run_calls_prefix code (tree_calls ast)
                (run_call code (CallAddFeature "hashbang" (Some 0) (Some 2))
                   empty_acc)) as (ks & Hks).
    exists ks. rewrite Hks. reflexivity. }
  destruct Hkeys as (ks & Hkeys).
  (* its snippets are the one submission *)
  assert (Hsn : obj_val <$> snippets_of a "hashbang" = [extractSnippet code 0 2]).
  { unfold a. rewrite run_calls_snippets by apply fresh_empty.
    rewrite Hinit. cbn [app].
    rewrite submissions_cons, (submissions_none "hashbang" (tree_calls ast)).
    - reflexivity.
    - eapply Forall_impl;
        [exact (tree_calls_Forall (fun c => visitor_key (call_key c) = true)
                  ast visit_key)|].
      intros c Hc. apply visitor_key_spec in Hc. apply Hc. }
  assert (Hfm : is_Some (featureMap !! "hashbang")) by (vm_compute; eauto).
  destruct Hfm as (fs & Hfm).
  pose proof (extractSnippet_hashbang code Hh) as (H1 & H2 & H3 & H4).
  eexists _, (mkDF fs (obj_val <$> snippets_of a "hashbang")), _.
  split; [reflexivity|]. cbn [features build_result].
  split; [|rewrite Hsn; cbn [base codeSnippets]; auto 10].
  unfold build_features. rewrite Hkeys.
  change (omap ?f ("hashbang" :: ks)) with
    (match f "hashbang" with Some y => y :: omap f ks | None => omap f ks end).
  cbv beta. rewrite Hfm. f_equal. f_equal. unfold snippets_of.
  destruct (featureSnippets a !! "hashbang"); reflexivity.
Qed.

Lemma hashbang_is_first_feature_witness :
  let code := "#!/usr/bin/env node" in
  let parse := fun _ : string => Parsed (File 0 19 []) in
  exists r df rest,
    analyzeCode parse code = Resolved r
    /\ features r = df :: rest
    /\ featureMap !! "hashbang" = Some (base df)
    /\ codeSnippets df = [extractSnippet code 0 2]
    /\ matchText (extractSnippet code 0 2) = "#!"
    /\ matchLine (extractSnippet code 0 2) = 1
    /\ matchCol (extractSnippet code 0 2) = 0
    /\ startLine (extractSnippet code 0 2) = 1.
Proof.
  apply (hashbang_is_first_feature (fun _ => Parsed (File 0 19 []))
           "#!/usr/bin/env node" (File 0 19 [])); reflexivity.
Defined.

(** ** The category counts of the view *)

Lemma count_feature_other rows name c :
  c ∉ fst <$> rows ->
  forall counts, count_feature rows name counts !! c = counts !! c.
Proof.
  unfold count_feature. induction rows as [|[c' names'] rows IH];
    intros Hc counts; [reflexivity|].
  rewrite fmap_cons in Hc. apply not_elem_of_cons in Hc as [Hne Hc].
  cbn [fold_left fst snd]. rewrite (IH Hc).
  destruct (JS.array_includes names' name); [|reflexivity].
  unfold View.increment. apply lookup_insert_ne. cbn in Hne. congruence.
Qed.

Lemma count_feature_row rows name c names :
  NoDup (fst <$> rows) ->
  (c, names) ∈ rows ->
  forall counts,
    count_feature rows name counts !! c
    = if JS.array_includes names name
      then Some (default 0 (counts !! c) + 1)
      else counts !! c.
Proof.
  induction rows as [|[c' names'] rows IH]; intros Hnd Hin counts;
    [inversion Hin|].
  rewrite fmap_cons in Hnd. apply NoDup_cons in Hnd as [Hc' Hnd].
  apply elem_of_cons in Hin as [Heq|Hin].
  - injection Heq as <- <-.
    change (count_feature ((c, names) :: rows) name counts)
      with (count_feature rows name
              (if JS.array_includes names name
               then View.increment counts c else counts)).
    rewrite count_feature_other by exact Hc'.
    destruct (JS.array_includes names name); [|reflexivity].
    unfold View.increment. apply lookup_insert_eq.
  - change (count_feature ((c', names') :: rows) name counts)
      with (count_feature rows name
              (if JS.array_includes names' name
               then View.increment counts c' else counts)).
    rewrite (IH Hnd Hin).
    assert (Hne : c' <> c).
    { intros ->. apply Hc'. apply list_elem_of_fmap. exists (c, names). auto. }
    destruct (JS.array_includes names' name); [|reflexivity].
    unfold View.increment. rewrite lookup_insert_ne by exact Hne. reflexivity.
Qed.

Lemma categories_distinct : NoDup (fst <$> View.categories).
Proof. apply (bool_decide_unpack _). vm_compute. reflexivity. Qed.

Lemma zero_counts_row c names :
  (c, names) ∈ View.categories -> View.zero_counts !! c = Some 0.
Proof.
  intros H. unfold View.categories in H.
  repeat (apply elem_of_cons in H as [H|H];
          [injection H as -> _; vm_compute; reflexivity|]).
  inversion H.
Qed.

(** X19: the count the view shows for a category is the number of detected
    features whose name is listed under that category; a feature listed
    under two categories is counted in both. *)
Theorem category_count_is_number_of_members analysis category names :
  (category, names) ∈ View.categories ->
  View.getFeatureCategories analysis !! category
  = Some (Z.of_nat
            (length (List.filter
                       (fun df : DetectedFeature =>
                          JS.array_includes names (feature (base df)))
                       (features analysis)))).
Proof.
  intros Hrow. unfold View.getFeatureCategories.
  change (fold_left _ (features analysis) View.zero_counts)
    with (fold_left (fun counts (df : DetectedFeature) =>
                       count_feature View.categories (feature (base df)) counts)
                    (features analysis) View.zero_counts).
  assert (Hgen : forall fs counts k,
             counts !! category = Some k ->
             fold_left (fun counts (df : DetectedFeature) =>
                          count_feature View.categories (feature (base df)) counts)
                       fs counts !! category
             = Some (k + Z.of_nat
                           (length (List.filter
                                      (fun df : DetectedFeature =>
                                         JS.array_includes names
                                           (feature (base df))) fs)))).
  { induction fs as [|df fs IH]; intros counts k Hk.
    - cbn [fold_left List.filter length]. rewrite Hk. f_equal. lia.
    - cbn [fold_left List.filter].
      pose proof (count_feature_row View.categories (feature (base df))
                    category names categories_distinct Hrow counts) as Hstep.
      rewrite Hk in Hstep. change (default 0 (Some k)) with k in Hstep.
      destruct (JS.array_includes names (feature (base df))).
      + rewrite (IH _ _ Hstep). cbn [length]. f_equal. lia.
      + rewrite (IH _ _ Hstep). reflexivity. }
  rewrite (Hgen _ _ 0 (zero_counts_row _ _ Hrow)). f_equal.
Qed.

Lemma category_count_is_number_of_members_witness :
  View.getFeatureCategories four_features !! "syntax" = Some 1
  /\ View.getFeatureCategories four_features !! "dataStructures" = Some 1
  /\ View.getFeatureCategories four_features !! "concurrency" = Some 2.
Proof.
  split; [|split];
    (etransitivity;
     [eapply category_count_is_number_of_members;
      apply list_elem_of_In; cbn [View.categories In]; tauto
     |vm_compute; reflexivity]).
Defined.

(** ** The matrix and the order of the features *)

Lemma slot_values_perm b fs fs' d :
  fs ≡ₚ fs' -> d ∈ slot_values b fs -> d ∈ slot_values b fs'.
Proof.
  intros Hp Hd. apply slot_values_elem in Hd as (f & Hf & Hd).
  apply slot_values_elem. exists f. split; [rewrite <- Hp; exact Hf|exact Hd].
Qed.

(** X20: the matrix does not depend on the order in which the features were
    detected: for two lists with the same features a slot is [No] in both or
    in neither, and where it is a number the two numbers are equal. *)
Theorem matrix_order_independent (b : Browser) (fs fs' : list FeatureSupport) :
  fs ≡ₚ fs' ->
  (slot b (calculateMinimumVersions fs) = "No"
   <-> slot b (calculateMinimumVersions fs') = "No")
  /\ forall m m',
       numeric_prefix (slot b (calculateMinimumVersions fs)) = JS.Finite m ->
       numeric_prefix (slot b (calculateMinimumVersions fs')) = JS.Finite m' ->
       (JS.value m == JS.value m')%Q.
Proof.
  intros Hp.
  pose proof (minimum_version_spec b fs) as H.
  pose proof (minimum_version_spec b fs') as H'.
  pose proof (slot_values_perm b fs fs') as Hto.
  pose proof (slot_values_perm b fs' fs) as Hfrom.
  destruct (slot_values b fs) as [|x l], (slot_values b fs') as [|x' l'].
  - rewrite H, H'. split; [tauto|]. intros m m' Hm. discriminate Hm.
  - specialize (Hfrom x' (symmetry Hp) (list_elem_of_here _ _)). inversion Hfrom.
  - specialize (Hto x Hp (list_elem_of_here _ _)). inversion Hto.
  - destruct H as (m0 & Hin & Hmax & _ & Hpre & _).
    destruct H' as (m0' & Hin' & Hmax' & _ & Hpre' & _).
    split.
    + split; intros Hno; [rewrite Hno in Hpre|rewrite Hno in Hpre'];
        discriminate.
    + intros m m' Hm Hm'. rewrite Hpre in Hm. rewrite Hpre' in Hm'.
      injection Hm as <-. injection Hm' as <-.
      apply Qle_antisym.
      * apply Hmax', (Hto _ Hp), Hin.
      * apply Hmax, (Hfrom _ (symmetry Hp)), Hin'.
Qed.

Lemma matrix_order_independent_witness :
  let f1 := mkFS "A" "" (mkSupport "1+" "1+" "10+" "1+" "No") None in
  let f2 := mkFS "B" "" (mkSupport "1+" "1+" "15.4+" "1+" "No") None in
  (slot Safari (calculateMinimumVersions [f1; f2]) = "No"
   <-> slot Safari (calculateMinimumVersions [f2; f1]) = "No")
  /\ forall m m',
       numeric_prefix (slot Safari (calculateMinimumVersions [f1; f2]))
       = JS.Finite m ->
       numeric_prefix (slot Safari (calculateMinimumVersions [f2; f1]))
       = JS.Finite m' ->
       (JS.value m == JS.value m')%Q.
Proof. apply matrix_order_independent. apply Permutation_swap. Defined.
